(** * HRM_LEVEL2: call budget, retry, parsing, scoring tiers and ranking

    A shallow embedding of the core of the resume matcher:
    - [modules/ai_client.py]: the per-minute call budget, the retry loop
      around the external call and the tolerant JSON parse step;
    - [modules/evaluator.py]: the tier classifier, the local fallback
      rationale and the ranking of a batch of results;
    - [modules/rubrics_generator.py]: weight normalisation and validation.

    Conventions of the embedding.
    - Python floats and ints used as scores, weights and clock readings are
      exact rationals ([Q]); Python's [==] on them is [Qeq]. Weight
      normalisation, whose result depends on the rounding of each operation,
      is given a second time on IEEE 754 doubles ([F64]).
    - Python [str] is [string]; [str.lower] acts on the ASCII letters.
    - A [dict] whose iteration order matters is an association list in
      insertion order.
    - Wall-clock time is a simulated clock carried in the state:
      [time.time()] reads it, [time.sleep d] advances it by [d]. *)

From Stdlib Require Import ZArith QArith Qround Qabs String Ascii List Lia
  DecimalString Sorted Permutation SpecFloat Lqa.
From stdpp Require Import base gmap list strings.
Import ListNotations.

Open Scope string_scope.
Open Scope Q_scope.
Open Scope list_scope.

(* string concatenation computes on its first argument *)
#[local] Arguments String.append !s1 s2 : simpl nomatch.

(** ** Python strings *)

Module PyStr.

Definition is_upper (c : ascii) : bool :=
  let n := nat_of_ascii c in (65 <=? n)%nat && (n <=? 90)%nat.

Definition lower_ascii (c : ascii) : ascii :=
  if is_upper c then ascii_of_nat (nat_of_ascii c + 32) else c.

(** [s.lower()] *)
Fixpoint lower (s : string) : string :=
  match s with
  | EmptyString => EmptyString
  | String c r => String (lower_ascii c) (lower r)
  end.

(** [s.startswith(p)] *)
Fixpoint startswith (p s : string) : bool :=
  match p with
  | EmptyString => true
  | String x p' =>
    match s with
    | EmptyString => false
    | String y s' => Ascii.eqb x y && startswith p' s'
    end
  end.

(** [p in s] for two strings *)
Fixpoint str_in (p s : string) : bool :=
  if startswith p s then true
  else match s with
       | EmptyString => false
       | String _ r => str_in p r
       end.

(** [s.replace(a, b)] for single characters *)
Fixpoint replace_char (a b : ascii) (s : string) : string :=
  match s with
  | EmptyString => EmptyString
  | String c r => String (if Ascii.eqb c a then b else c) (replace_char a b r)
  end.

(** [sep.join(l)] *)
Fixpoint join (sep : string) (l : list string) : string :=
  match l with
  | [] => ""
  | [x] => x
  | x :: r => x +:+ sep +:+ join sep r
  end.

(** [bool(s)] of a string: the empty string is falsy. *)
Definition truthy (s : string) : bool :=
  match s with EmptyString => false | String _ _ => true end.

(** Scanners used to reason about which phrases can occur in a text
    assembled from pieces: [has_pair c1 c2 prev s] says that the character
    [c2] directly follows [c1] somewhere in [s], where [prev] tells whether
    the character just before [s] was [c1]. *)
Fixpoint has_pair (c1 c2 : ascii) (prev : bool) (s : string) : bool :=
  match s with
  | EmptyString => false
  | String c r => (prev && Ascii.eqb c c2) || has_pair c1 c2 (Ascii.eqb c c1) r
  end.

Fixpoint ends_with (c1 : ascii) (prev : bool) (s : string) : bool :=
  match s with
  | EmptyString => prev
  | String c r => ends_with c1 (Ascii.eqb c c1) r
  end.

(** every character of [s] is one of the characters of [set] *)
Fixpoint mem_char (c : ascii) (set : string) : bool :=
  match set with
  | EmptyString => false
  | String d r => Ascii.eqb c d || mem_char c r
  end.

Fixpoint all_in (set s : string) : bool :=
  match s with
  | EmptyString => true
  | String c r => mem_char c set && all_in set r
  end.

(** Characters drawn from [set] never lower-case to [c2]. *)
Definition set_avoids (c2 : ascii) (set : string) : Prop :=
  forall d, mem_char d set = true -> Ascii.eqb (lower_ascii d) c2 = false.

End PyStr.

(** ** Numbers *)

Module PyNum.

Definition Qge_bool (x y : Q) : bool := Qle_bool y x.
Definition Qlt_bool (x y : Q) : bool := negb (Qle_bool y x).
Definition Qgt_bool (x y : Q) : bool := negb (Qle_bool x y).

(** Nearest integer, ties to the even one: the rounding used by
    [round(x, n)] and by the [.nf] format on an exact value. *)
Definition round_half_even (q : Q) : Z :=
  let f := Qfloor q in
  let r := q - inject_Z f in
  if Qlt_bool r (1 # 2) then f
  else if Qgt_bool r (1 # 2) then (f + 1)%Z
  else if Z.even f then f else (f + 1)%Z.

(** [round(q, 2)] *)
Definition round2 (q : Q) : Q := Qmake (round_half_even (q * 100)) 100.

Definition digits_of_Z (z : Z) : string :=
  NilZero.string_of_uint (N.to_uint (Z.to_N z)).

(** [f"{q:.1f}"]: sign, integer part, a dot and one decimal digit. *)
Definition fmt_1f (q : Q) : string :=
  let n := round_half_even (Qabs q * 10) in
  (if Qlt_bool q 0 then "-" else "") +:+
  digits_of_Z (n / 10) +:+ "." +:+ digits_of_Z (n mod 10).

End PyNum.

Import PyStr PyNum.

(** ** The tier classifier, [modules/evaluator.py] *)

Inductive Tier := VERY_LOW | LOW | MODERATE | BEST | TOP.

Definition tier_rank (t : Tier) : nat :=
  match t with
  | VERY_LOW => 0 | LOW => 1 | MODERATE => 2 | BEST => 3 | TOP => 4
  end.

(** A score map: category name to score, in insertion order. *)
Definition ScoreMap := list (string * Q).

(** [d.get(key, default)] *)
Fixpoint dict_get {V : Type} (d : list (string * V)) (key : string) (default : V) : V :=
  match d with
  | [] => default
  | (k, v) :: r => if String.eqb k key then v else dict_get r key default
  end.

(** [sum(l)]: Python folds from the left, starting at 0. *)
Definition py_sum (l : list Q) : Q := fold_left Qplus l 0.

Definition base_tier (overall_score : Q) : Tier :=
  if Qge_bool overall_score 80 then TOP
  else if Qge_bool overall_score 60 then BEST
  else if Qge_bool overall_score 40 then MODERATE
  else if Qge_bool overall_score 20 then LOW
  else VERY_LOW.

Definition critical_scores : list string := ["skills"; "tools"; "experience"].

Definition critical_avg (scores : ScoreMap) : Q :=
  py_sum (map (fun key => dict_get scores key 0) critical_scores)
  / inject_Z (Z.of_nat (length critical_scores)).

Definition is_top_or_best (t : Tier) : bool :=
  match t with TOP | BEST => true | _ => false end.

Definition is_moderate (t : Tier) : bool :=
  match t with MODERATE => true | _ => false end.

(** The tier after the threshold step and the critical-category safeguard
    (the [if ... elif ...] of the source). *)
Definition safeguard_tier (overall_score : Q) (scores : ScoreMap) : Tier :=
  let candidate_tier := base_tier overall_score in
  let avg := critical_avg scores in
  if Qlt_bool avg 50 && is_top_or_best candidate_tier then MODERATE
  else if Qlt_bool avg 30 && is_moderate candidate_tier then LOW
  else candidate_tier.

Definition has_positive_phrase (reasoning_lower : string) : bool :=
  str_in "strong hire" reasoning_lower || str_in "excellent fit" reasoning_lower.

Definition has_negative_phrase (reasoning_lower : string) : bool :=
  str_in "not recommended" reasoning_lower || str_in "poor fit" reasoning_lower
  || str_in "limited alignment" reasoning_lower.

(** [determine_candidate_tier(overall_score, scores, ai_reasoning)];
    [ai_reasoning] is [None] or a string, and an empty string is falsy. *)
Definition determine_candidate_tier
    (overall_score : Q) (scores : ScoreMap) (ai_reasoning : option string) : Tier :=
  let candidate_tier := safeguard_tier overall_score scores in
  match ai_reasoning with
  | None => candidate_tier
  | Some text =>
    if truthy text then
      let reasoning_lower := lower text in
      if has_positive_phrase reasoning_lower then
        if Qge_bool overall_score 70 then TOP
        else if Qge_bool overall_score 60 then BEST
        else candidate_tier
      else if has_negative_phrase reasoning_lower then
        if Qlt_bool overall_score 50 then LOW else MODERATE
      else candidate_tier
    else candidate_tier
  end.

(** ** Python builtins used by the evaluator *)

(** Exceptions the modelled code can raise at the modelled call sites. *)
Inductive PyExc :=
| KeyError (key : string)
| ValueError
| TypeError.

Inductive PyResult (A : Type) :=
| Returned (a : A)
| Raised (e : PyExc).
Arguments Returned {A} a.
Arguments Raised {A} e.

(** [d[key]] *)
Fixpoint dict_index {V : Type} (d : list (string * V)) (key : string) : PyResult V :=
  match d with
  | [] => Raised (KeyError key)
  | (k, v) :: r => if String.eqb k key then Returned v else dict_index r key
  end.

Section StableSort.
Context {A : Type}.
(** [before y x]: [y] must stay in front of a newly inserted [x]. *)
Variable before : A -> A -> bool.

Fixpoint insert_sorted (x : A) (l : list A) : list A :=
  match l with
  | [] => [x]
  | y :: r => if before y x then y :: insert_sorted x r else x :: y :: r
  end.

Definition stable_sort (l : list A) : list A := foldr insert_sorted [] l.
End StableSort.

(** [sorted(l, key=key, reverse=reverse)]. The builtin is a stable sort that
    compares keys with [<] only; with [reverse=True] elements with equal keys
    still keep their original order. Each element is inserted behind the
    elements that sort strictly before it, from the right end of the list,
    which yields the one stable ordering. *)
Definition py_sorted {A : Type} (key : A -> Q) (reverse : bool) (l : list A) : list A :=
  stable_sort
    (fun y x => if reverse then Qlt_bool (key x) (key y) else Qlt_bool (key y) (key x))
    l.

(** [max(l, key=key)]: the first element whose key is maximal;
    [ValueError] on an empty sequence. *)
Fixpoint max_from {A : Type} (key : A -> Q) (best : A) (l : list A) : A :=
  match l with
  | [] => best
  | x :: r => max_from key (if Qgt_bool (key x) (key best) then x else best) r
  end.

Definition py_max {A : Type} (key : A -> Q) (l : list A) : PyResult A :=
  match l with
  | [] => Raised ValueError
  | x :: r => Returned (max_from key x r)
  end.

(** ** The local fallback rationale, [generate_fallback_reasoning] *)

Definition category_label (key : string) : string := replace_char "_" " " key.

Definition fallback_strong (overall skills experience : string) : string :=
  "This candidate demonstrates strong alignment with the role requirements, achieving an overall match score of "
  +:+ overall +:+
  "%. The candidate shows particularly strong performance in key evaluation areas, with solid technical skills ("
  +:+ skills +:+ "%) and relevant experience (" +:+ experience +:+
  "%). The profile suggests a well-rounded professional with the necessary competencies to excel in this position. Recommendation: Strong candidate for further consideration and interview.".

Definition fallback_moderate (overall best_name best_score : string) : string :=
  "This candidate shows moderate alignment with the role requirements, achieving an overall match score of "
  +:+ overall +:+
  "%. While there are some areas of strength, particularly in "
  +:+ best_name +:+ " (" +:+ best_score +:+
  "%), there are also notable gaps in other critical areas. The candidate may require additional assessment to determine if they can bridge these gaps through training or on-the-job learning. Recommendation: Consider for interview with focus on addressing identified gaps.".

Definition weak_lit1 : string :=
  "This candidate shows limited alignment with the role requirements, achieving an overall match score of ".
Definition weak_lit2 : string :=
  "%. Significant gaps exist in multiple critical areas including ".
Definition weak_lit3 : string :=
  ". These gaps suggest the candidate may not currently possess the necessary foundation for success in this role. Recommendation: Not recommended for this position at this time; consider for alternative roles or future opportunities after skill development.".

Definition fallback_weak (overall weak_names : string) : string :=
  weak_lit1 +:+ overall +:+ weak_lit2 +:+ weak_names +:+ weak_lit3.

Definition weak_names_of (scores : ScoreMap) : string :=
  let weak_areas := firstn 3 (py_sorted (fun x : string * Q => snd x) false scores) in
  join ", " (map (fun kv : string * Q => category_label (fst kv)) weak_areas).

Definition generate_fallback_reasoning (overall_score : Q) (scores : ScoreMap)
  : PyResult string :=
  if Qge_bool overall_score 75 then
    match dict_index scores "skills" with
    | Raised e => Raised e
    | Returned sk =>
      match dict_index scores "experience" with
      | Raised e => Raised e
      | Returned ex =>
        Returned (fallback_strong (fmt_1f overall_score) (fmt_1f sk) (fmt_1f ex))
      end
    end
  else if Qge_bool overall_score 55 then
    match py_max (fun k => dict_get scores k 0) (map fst scores) with
    | Raised e => Raised e
    | Returned best_category =>
      match dict_index scores best_category with
      | Raised e => Raised e
      | Returned v =>
        Returned (fallback_moderate (fmt_1f overall_score)
                    (category_label best_category) (fmt_1f v))
      end
    end
  else
    Returned (fallback_weak (fmt_1f overall_score) (weak_names_of scores)).

(** The score map built by [evaluate_candidate_with_reasoning]: the seven
    categories, inserted in this order. *)
Definition pipeline_scores (skills tools experience education projects
                            certifications profile_quality : Q) : ScoreMap :=
  [("skills", skills); ("tools", tools); ("experience", experience);
   ("education", education); ("projects", projects);
   ("certifications", certifications); ("profile_quality", profile_quality)].

(** The seven category names of the score map. *)
Definition category_names : list string :=
  ["skills"; "tools"; "experience"; "education"; "projects";
   "certifications"; "profile_quality"].

Definition known_categories (scores : ScoreMap) : Prop :=
  Forall (fun kv : string * Q => In (fst kv) category_names) scores.

(** The characters a formatted number is made of. *)
Definition number_chars : string := "-0123456789.".

(** The tier computed when the rationale handed to the classifier is the
    local fallback text, as in [evaluate_candidate_with_reasoning] when
    [generate_ai_reasoning] falls back. *)
Definition tier_with_fallback (overall_score : Q) (scores : ScoreMap) : PyResult Tier :=
  match generate_fallback_reasoning overall_score scores with
  | Raised e => Raised e
  | Returned text => Returned (determine_candidate_tier overall_score scores (Some text))
  end.

(** The reading of the free-text step that the specification gives: a phrase
    match never lifts a candidate whom the safeguard put at MODERATE above
    MODERATE, and moves the tier by at most one step. *)
Definition phrase_step_keeps_safeguard : Prop :=
  forall (overall : Q) (scores : ScoreMap) (text : string),
    is_top_or_best (base_tier overall) = true ->
    safeguard_tier overall scores = MODERATE ->
    (tier_rank (determine_candidate_tier overall scores (Some text))
     <= tier_rank MODERATE)%nat.

Definition phrase_step_at_most_one_step : Prop :=
  forall (overall : Q) (scores : ScoreMap) (text : string),
    let before := tier_rank (safeguard_tier overall scores) in
    let after := tier_rank (determine_candidate_tier overall scores (Some text)) in
    (after <= before + 1)%nat /\ (before <= after + 1)%nat.

(** ** Ranking a batch of results, [rank_candidates] *)

(** An evaluation result: the dict assembled by the caller from the output of
    [evaluate_candidate_with_reasoning]. The key ['rank'] is absent until the
    batch is ranked. *)
Record EvalResult := {
  candidate_name : string;
  overall_score : Q;
  individual_scores : ScoreMap;
  weights_applied : list (string * Q);
  ai_reasoning : option string;
  candidate_tier : Tier;
  strengths : list string;
  weaknesses : list string;
  rank : option nat
}.

(** [result['rank'] = k] *)
Definition set_rank (k : nat) (e : EvalResult) : EvalResult :=
  {| candidate_name := candidate_name e;
     overall_score := overall_score e;
     individual_scores := individual_scores e;
     weights_applied := weights_applied e;
     ai_reasoning := ai_reasoning e;
     candidate_tier := candidate_tier e;
     strengths := strengths e;
     weaknesses := weaknesses e;
     rank := Some k |}.

(** The result dicts are mutable objects: a list of results is a list of
    references into a store, and the input list and the returned list share
    the objects they refer to. *)
Abbreviation Store := (gmap nat EvalResult).

Definition score_of (h : Store) (r : nat) : Q :=
  match h !! r with
  | Some e => overall_score e
  | None => 0
  end.

Definition rank_of (h : Store) (r : nat) : option nat :=
  match h !! r with
  | Some e => rank e
  | None => None
  end.

(** [for rank, result in enumerate(sorted_results, start): result['rank'] = rank] *)
Fixpoint assign_ranks (h : Store) (start : nat) (sorted_results : list nat) : Store :=
  match sorted_results with
  | [] => h
  | result :: rest => assign_ranks (alter (set_rank start) result h) (S start) rest
  end.

Definition rank_candidates (h : Store) (evaluation_results : list nat)
  : Store * list nat :=
  let sorted_results := py_sorted (score_of h) true evaluation_results in
  (assign_ranks h 1 sorted_results, sorted_results).

(** The fields of a result other than its rank are the same. *)
Definition same_scores (e e' : EvalResult) : Prop :=
  exists k, e' = {| candidate_name := candidate_name e;
                    overall_score := overall_score e;
                    individual_scores := individual_scores e;
                    weights_applied := weights_applied e;
                    ai_reasoning := ai_reasoning e;
                    candidate_tier := candidate_tier e;
                    strengths := strengths e;
                    weaknesses := weaknesses e;
                    rank := k |}.

(** A batch of fresh results with the given overall scores, stored at
    references 0, 1, 2, ... *)
Definition blank_result (name : string) (score : Q) : EvalResult :=
  {| candidate_name := name; overall_score := score; individual_scores := [];
     weights_applied := []; ai_reasoning := None; candidate_tier := base_tier score;
     strengths := []; weaknesses := []; rank := None |}.

Fixpoint store_of_scores (next : nat) (scores : list Q) : Store :=
  match scores with
  | [] => ∅
  | s :: rest => <[next := blank_result "" s]> (store_of_scores (S next) rest)
  end.

(** ** Rubric weights, [modules/rubrics_generator.py] *)

(** A weights map: category name to weight, in insertion order. *)
Definition Weights := list (string * Q).

(** [config.DEFAULT_RUBRICS_WEIGHTS] *)
Definition DEFAULT_RUBRICS_WEIGHTS : Weights :=
  [("skills", 25); ("tools", 25); ("experience", 20); ("education", 5);
   ("projects", 15); ("certifications", 5); ("profile_quality", 5)].

Definition dict_keys {V : Type} (d : list (string * V)) : list string := map fst d.
Definition dict_values {V : Type} (d : list (string * V)) : list V := map snd d.

(** [key in d] *)
Definition dict_has {V : Type} (d : list (string * V)) (key : string) : bool :=
  existsb (fun kv => String.eqb (fst kv) key) d.

(** [d[key] = v]: overwrite in place, or append a new key. *)
Fixpoint dict_set {V : Type} (d : list (string * V)) (key : string) (v : V)
  : list (string * V) :=
  match d with
  | [] => [(key, v)]
  | (k, x) :: r =>
    if String.eqb k key then (k, v) :: r else (k, x) :: dict_set r key v
  end.

(** The loop [for key, value in weights.items(): normalized[key] = ...] *)
Definition rescale (total : Q) (weights : Weights) : Weights :=
  fold_left (fun normalized kv =>
               dict_set normalized (fst kv) (round2 (snd kv / total * 100)))
            weights [].

Definition normalize_weights (weights : Weights) : PyResult Weights :=
  let total := py_sum (dict_values weights) in
  if Qeq_bool total 0 then Returned DEFAULT_RUBRICS_WEIGHTS
  else
    let normalized := rescale total weights in
    let diff := 100 - py_sum (dict_values normalized) in
    if negb (Qeq_bool diff 0) then
      match py_max (fun k => dict_get normalized k 0) (dict_keys normalized) with
      | Raised e => Raised e
      | Returned max_key =>
        match dict_index normalized max_key with
        | Raised e => Raised e
        | Returned v => Returned (dict_set normalized max_key (v + diff))
        end
      end
    else Returned normalized.

(** The weight check at the end of [generate_rubrics_from_jd], applied to the
    weights of the parsed response: weights further than 0.1 from a total of
    100 are replaced by their normalisation. *)
Definition generated_weights (weights : Weights) : PyResult Weights :=
  let total_weight := py_sum (dict_values weights) in
  if Qgt_bool (Qabs (total_weight - 100)) (1 # 10) then normalize_weights weights
  else Returned weights.

(** The message returned next to the verdict by [validate_rubrics]. *)
Inductive ValidationMessage :=
| MissingWeights
| MissingWeightKey (key : string)
| WeightsSumTo (total : Q)
| NegativeWeight (key : string) (value : Q)
| Valid.

Definition required_keys : list string := category_names.

(** [validate_rubrics(rubrics)], on the ['weights'] entry of the rubrics
    ([None] when the key is absent). It returns a pair and never raises. *)
Definition validate_rubrics (rubrics_weights : option Weights)
  : bool * ValidationMessage :=
  match rubrics_weights with
  | None => (false, MissingWeights)
  | Some weights =>
    match find (fun key => negb (dict_has weights key)) required_keys with
    | Some key => (false, MissingWeightKey key)
    | None =>
      let total := py_sum (dict_values weights) in
      if Qgt_bool (Qabs (total - 100)) (1 # 10) then (false, WeightsSumTo total)
      else
        match find (fun kv : string * Q => Qlt_bool (snd kv) 0) weights with
        | Some (key, value) => (false, NegativeWeight key value)
        | None => (true, Valid)
        end
    end
  end.

(** Two weight maps are equal as Python dicts: same keys in the same order,
    values equal as numbers. *)
Definition weights_eq (a b : Weights) : Prop :=
  Forall2 (fun x y => fst x = fst y /\ snd x == snd y) a b.

(** A dict has each key once. *)
Definition well_formed_dict {V : Type} (d : list (string * V)) : Prop :=
  NoDup (dict_keys d).

(** The specification's reading of a zero-sum rubric: it is rejected with an
    error and never replaced by defaults. *)
Definition zero_sum_is_rejected : Prop :=
  forall weights : Weights,
    py_sum (dict_values weights) == 0 ->
    exists e, normalize_weights weights = Raised e.

(** A number with at most two decimals. *)
Definition two_decimals (q : Q) : Prop := exists k : Z, q == k # 100.

(** ** The same normalisation on IEEE 754 doubles

    Weights are Python numbers, and [value / total], [round(x, 2)], [sum]
    and [+=] compute on binary64 floats. [F64] is that arithmetic, from the
    standard library's integer-based specification of IEEE 754 (53-bit
    mantissa, round to nearest even). An integer weight is the double of the
    same value. *)
Module F64.

Definition prec : Z := 53.
Definition emax : Z := 1024.

Definition of_Z (n : Z) : spec_float := binary_normalize prec emax n 0 false.
Definition add : spec_float -> spec_float -> spec_float := SFadd prec emax.
Definition sub : spec_float -> spec_float -> spec_float := SFsub prec emax.
Definition mul : spec_float -> spec_float -> spec_float := SFmul prec emax.
Definition div : spec_float -> spec_float -> spec_float := SFdiv prec emax.
Definition eqb : spec_float -> spec_float -> bool := SFeqb.
Definition ltb : spec_float -> spec_float -> bool := SFltb.

(** The exact value of a finite double. *)
Definition to_Q (x : spec_float) : Q :=
  match x with
  | S754_finite s m e =>
    (if s then - inject_Z (Zpos m) else inject_Z (Zpos m)) * (2 ^ e)
  | _ => 0
  end.

(** [round(x, 2)]: the exact value is rounded to two decimals, ties to even,
    and the double nearest to that decimal is returned. *)
Definition round2 (x : spec_float) : spec_float :=
  match x with
  | S754_finite _ _ _ => div (of_Z (round_half_even (to_Q x * 100))) (of_Z 100)
  | _ => x
  end.

(** [sum(l)] up to CPython 3.11: a running double, from the left. *)
Definition sum (l : list spec_float) : spec_float := fold_left add l (of_Z 0).

(** [sum(l)] from CPython 3.12 on: Neumaier's compensated summation. *)
Definition sum_compensated (l : list spec_float) : spec_float :=
  let step (acc : spec_float * spec_float) (x : spec_float) :=
    let (s, c) := acc in
    let t := add s x in
    let c' := if negb (ltb (SFabs s) (SFabs x))
              then add c (add (sub s t) x)
              else add c (add (sub x t) s) in
    (t, c') in
  let (s, c) := fold_left step l (of_Z 0, of_Z 0) in
  add s c.

Fixpoint max_from (key : string -> spec_float) (best : string) (l : list string)
  : string :=
  match l with
  | [] => best
  | x :: r => max_from key (if ltb (key best) (key x) then x else best) r
  end.

Definition py_max (key : string -> spec_float) (l : list string) : PyResult string :=
  match l with
  | [] => Raised ValueError
  | x :: r => Returned (max_from key x r)
  end.

Definition rescale (total : spec_float) (weights : list (string * spec_float))
  : list (string * spec_float) :=
  fold_left (fun normalized kv =>
               dict_set normalized (fst kv)
                 (round2 (mul (div (snd kv) total) (of_Z 100))))
            weights [].

Section Normalize.
(** the [sum] builtin of the interpreter at hand *)
Variable py_sum : list spec_float -> spec_float.

Definition normalize_weights (weights : list (string * spec_float))
  : PyResult (list (string * spec_float)) :=
  let total := py_sum (dict_values weights) in
  if eqb total (of_Z 0) then
    Returned (map (fun kv : string * Q => (fst kv, of_Z (Qnum (snd kv))))
                  DEFAULT_RUBRICS_WEIGHTS)
  else
    let normalized := rescale total weights in
    let diff := sub (of_Z 100) (py_sum (dict_values normalized)) in
    if negb (eqb diff (of_Z 0)) then
      match py_max (fun k => dict_get normalized k (of_Z 0)) (dict_keys normalized) with
      | Raised e => Raised e
      | Returned max_key =>
        match dict_index normalized max_key with
        | Raised e => Raised e
        | Returned v => Returned (dict_set normalized max_key (add v diff))
        end
      end
    else Returned normalized.

(** [normalize_weights(normalize_weights(w)) == normalize_weights(w)] as
    Python compares two dicts of floats. *)
Definition dict_eqb (a b : list (string * spec_float)) : bool :=
  (length a =? length b)%nat &&
  forallb (fun kv => dict_has b (fst kv) && eqb (snd kv) (dict_get b (fst kv) S754_nan)) a.

Definition idempotent_on (weights : list (string * spec_float)) : bool :=
  match normalize_weights weights with
  | Returned once =>
    match normalize_weights once with
    | Returned twice => dict_eqb twice once
    | Raised _ => false
    end
  | Raised _ => false
  end.

Definition sums_to_100 (weights : list (string * spec_float)) : bool :=
  match normalize_weights weights with
  | Returned once => eqb (py_sum (dict_values once)) (of_Z 100)
  | Raised _ => false
  end.
End Normalize.

Definition int_weights (w : list (string * Z)) : list (string * spec_float) :=
  map (fun kv => (fst kv, of_Z (snd kv))) w.

End F64.

(** ** The call budget and the retry loop, [modules/ai_client.py] *)

Definition MIN_DELAY_BETWEEN_CALLS : Q := 4.
Definition MAX_RETRIES : nat := 4.
Definition INITIAL_RETRY_DELAY : Q := 15.
Definition CALLS_PER_MINUTE_LIMIT : Z := 20.

(** What the module does to the outside world, in order. *)
Inductive Event :=
| EvSleep (seconds : Q)      (* time.sleep(seconds) *)
| EvWindowStart (now : Q)    (* the counter is set to 0 and the window restarts *)
| EvGrant (now : Q)          (* _wait_for_rate_limit records a call *)
| EvCall (attempt : nat).    (* client.chat.completions.create(...) *)

(** The module's globals, the simulated clock and the trace so far. *)
Record World := {
  clock : Q;
  last_api_call_time : Q;
  api_call_count : Z;
  minute_start_time : Q;
  trace : list Event
}.

(** [time.sleep(seconds)] *)
Definition time_sleep (seconds : Q) (w : World) : World :=
  {| clock := clock w + seconds;
     last_api_call_time := last_api_call_time w;
     api_call_count := api_call_count w;
     minute_start_time := minute_start_time w;
     trace := trace w ++ [EvSleep seconds] |}.

(** [_api_call_count = 0; _minute_start_time = time.time()] *)
Definition restart_window (w : World) : World :=
  {| clock := clock w;
     last_api_call_time := last_api_call_time w;
     api_call_count := 0;
     minute_start_time := clock w;
     trace := trace w ++ [EvWindowStart (clock w)] |}.

(** [_last_api_call_time = time.time(); _api_call_count += 1] *)
Definition record_call (w : World) : World :=
  {| clock := clock w;
     last_api_call_time := clock w;
     api_call_count := api_call_count w + 1;
     minute_start_time := minute_start_time w;
     trace := trace w ++ [EvGrant (clock w)] |}.

Definition _reset_minute_counter (w : World) : World :=
  let current_time := clock w in
  if Qge_bool (current_time - minute_start_time w) 60 then restart_window w
  else w.

(** The per-minute check of [_wait_for_rate_limit]. *)
Definition minute_limit_check (w : World) : World :=
  if (CALLS_PER_MINUTE_LIMIT <=? api_call_count w)%Z then
    let time_elapsed := clock w - minute_start_time w in
    let time_remaining := 60 - time_elapsed in
    if Qgt_bool time_remaining 0 then
      restart_window (time_sleep (time_remaining + 2) w)
    else w
  else w.

(** The minimum spacing of [_wait_for_rate_limit]. *)
Definition min_delay_check (w : World) : World :=
  let current_time := clock w in
  let time_since_last_call := current_time - last_api_call_time w in
  if Qlt_bool time_since_last_call MIN_DELAY_BETWEEN_CALLS then
    time_sleep (MIN_DELAY_BETWEEN_CALLS - time_since_last_call) w
  else w.

Definition _wait_for_rate_limit (w : World) : World :=
  record_call (min_delay_check (minute_limit_check (_reset_minute_counter w))).

Definition reset_rate_limiter (w : World) : World :=
  {| clock := clock w;
     last_api_call_time := 0;
     api_call_count := 0;
     minute_start_time := clock w;
     trace := trace w ++ [EvWindowStart (clock w)] |}.

(** The state of the module right after import, at time [now]. *)
Definition initial_world (now : Q) : World :=
  {| clock := now; last_api_call_time := 0; api_call_count := 0;
     minute_start_time := now; trace := [] |}.

(** The external service and the random source, as seen by one call of
    [generate_content]: what attempt number [k] (from 0) yields, how long
    it takes, and the draw of [random.random()] used after it. *)
Inductive ApiOutcome :=
| ApiOk (content : option string)
| ApiError (message : string).

Record Env := {
  api : string -> nat -> ApiOutcome;
  latency : nat -> Q;
  random : nat -> Q
}.

(** The exceptions [generate_content] raises, by their message. *)
Inductive GenError :=
| RateLimitExceeded (attempts : nat)   (* "Rate limit exceeded after n attempts." *)
| TimeoutAfter (attempts : nat)        (* "Timeout after n attempts" *)
| GroqApiError (message : string)      (* "Groq API error: ..." *)
| FailedAfter (attempts : nat).        (* "Failed after n attempts" *)

Inductive ErrorClass := RateLimited | Timeout | Fatal.

Definition classify (message : string) : ErrorClass :=
  let error_msg := lower message in
  if existsb (fun keyword => str_in keyword error_msg) ["rate"; "limit"; "429"; "quota"]
  then RateLimited
  else if str_in "timeout" error_msg then Timeout
  else Fatal.

(** [random.uniform(a, b)] is [a + (b - a) * random.random()]. *)
Definition uniform (a b u : Q) : Q := a + (b - a) * u.

Definition backoff_delay (env : Env) (attempt : nat) : Q :=
  INITIAL_RETRY_DELAY * inject_Z (2 ^ Z.of_nat attempt) + uniform 2 8 (random env attempt).

(** The external call of one attempt: it is traced and takes its time. *)
Definition api_call (env : Env) (attempt : nat) (w : World) : World :=
  {| clock := clock w + latency env attempt;
     last_api_call_time := last_api_call_time w;
     api_call_count := api_call_count w;
     minute_start_time := minute_start_time w;
     trace := trace w ++ [EvCall attempt] |}.

(** The body of [for attempt in range(max_retries)], over the attempts left. *)
Fixpoint retry_loop (env : Env) (prompt : string) (max_retries : nat)
    (attempts : list nat) (w : World) : World * (GenError + option string) :=
  match attempts with
  | [] => (w, inl (FailedAfter max_retries))
  | attempt :: rest =>
    let w := api_call env attempt w in
    match api env prompt attempt with
    | ApiOk response => (w, inr response)
    | ApiError e =>
      match classify e with
      | RateLimited =>
        if (attempt <? max_retries - 1)%nat then
          let wait_time := backoff_delay env attempt in
          retry_loop env prompt max_retries rest
            (restart_window (time_sleep wait_time w))
        else (w, inl (RateLimitExceeded max_retries))
      | Timeout =>
        if (attempt <? max_retries - 1)%nat then
          let wait_time := 10 * inject_Z (Z.of_nat attempt + 1) in
          retry_loop env prompt max_retries rest (time_sleep wait_time w)
        else (w, inl (TimeoutAfter max_retries))
      | Fatal => (w, inl (GroqApiError e))
      end
    end
  end.

Definition generate_content (env : Env) (prompt : string) (max_retries : nat)
    (w : World) : World * (GenError + option string) :=
  let w := _wait_for_rate_limit w in
  retry_loop env prompt max_retries (seq 0 max_retries) w.

(** Reading a trace. *)
Definition is_grant (e : Event) : bool :=
  match e with EvGrant _ => true | _ => false end.
Definition is_call (e : Event) : bool :=
  match e with EvCall _ => true | _ => false end.

Definition grants (t : list Event) : nat := length (List.filter is_grant t).
Definition calls (t : list Event) : nat := length (List.filter is_call t).

(** The events added to the trace between two states. *)
Definition new_events (before after : World) : list Event :=
  skipn (length (trace before)) (trace after).

(** The specification's reading of the retry loop: every external call is
    preceded by its own grant of the budget tracker. [armed] tells whether a
    grant has been seen since the last call. *)
Fixpoint budget_before_every_call (armed : bool) (t : list Event) : bool :=
  match t with
  | [] => true
  | EvGrant _ :: r => budget_before_every_call true r
  | EvCall _ :: r => armed && budget_before_every_call false r
  | _ :: r => budget_before_every_call armed r
  end.

(** Everything that touches the tracker: acquiring, a whole
    [generate_content], the manual reset, and time passing in between. *)
Inductive TrackerOp :=
| OpAcquire
| OpGenerate (env : Env) (prompt : string) (max_retries : nat)
| OpManualReset
| OpIdle (seconds : Q).

Definition idle (seconds : Q) (w : World) : World :=
  {| clock := clock w + seconds;
     last_api_call_time := last_api_call_time w;
     api_call_count := api_call_count w;
     minute_start_time := minute_start_time w;
     trace := trace w |}.

Definition run_op (op : TrackerOp) (w : World) : World :=
  match op with
  | OpAcquire => _wait_for_rate_limit w
  | OpGenerate env prompt max_retries => fst (generate_content env prompt max_retries w)
  | OpManualReset => reset_rate_limiter w
  | OpIdle seconds => idle seconds w
  end.

Definition run_ops (ops : list TrackerOp) (w : World) : World :=
  fold_left (fun w op => run_op op w) ops w.

(** A two-attempt scenario: the service answers 429 once, then succeeds. *)
Definition env_429_then_ok : Env :=
  {| api := fun _ attempt =>
              match attempt with
              | O => ApiError "Error code: 429 - rate limit reached"
              | _ => ApiOk (Some "{}")
              end;
     latency := fun _ => 1;
     random := fun _ => 1 # 2 |}.

(** The service always answers 429. *)
Definition env_always_429 : Env :=
  {| api := fun _ _ => ApiError "Error code: 429 - rate limit reached";
     latency := fun _ => 1;
     random := fun _ => 1 # 2 |}.

(** The number of grants recorded in a trace since the window last
    restarted. *)
Definition window_step (n : Z) (e : Event) : Z :=
  match e with
  | EvWindowStart _ => 0
  | EvGrant _ => n + 1
  | _ => n
  end%Z.

Definition grants_in_window (t : list Event) : Z := fold_left window_step t 0%Z.

(** The counter agrees with the trace and is within the limit. *)
Definition budget_ok (w : World) : Prop :=
  api_call_count w = grants_in_window (trace w) /\
  (api_call_count w <= CALLS_PER_MINUTE_LIMIT)%Z.

(** The specification's reading of C1 on a whole invocation: in the events
    of every call of [generate_content], each external call has its own
    grant before it. *)
Definition acquire_before_every_attempt : Prop :=
  forall (env : Env) (prompt : string) (max_retries : nat) (w : World),
    budget_before_every_call false
      (new_events w (fst (generate_content env prompt max_retries w))) = true.

(** ** The tolerant JSON parse step, [modules/ai_client.py] *)

Module PyText.





Fixpoint str_drop (n : nat) (s : string) : string :=
  match n, s with
  | O, _ => s
  | S n', String _ r => str_drop n' r
  | S _, EmptyString => EmptyString
  end.



Definition rev_string (s : string) : string :=
  string_of_list_ascii (rev (list_ascii_of_string s)).







End PyText.

Import PyText.



(** A decoded JSON document. [JNull] is Python's [None]. *)
#[local] Unset Elimination Schemes.
Inductive Json :=
| JNull
| JBool (b : bool)
| JNumber (lexeme : string)
| JString (s : string)
| JArray (items : list Json)
| JObject (members : list (string * Json)).
#[local] Set Elimination Schemes.

Section ParseJsonResponse.
(** [json.loads] on a string: the decoded document, or [None] for
    [JSONDecodeError]. *)
Variable json_loads : string -> option Json.

End ParseJsonResponse.

(** ** [json.loads]

    A recursive-descent reader for the documents [json.loads] accepts:
    the JSON grammar, the extra literals NaN, Infinity and -Infinity, and no
    control characters inside strings. Numbers are kept as written, and a
    [\u] escape is kept as written. The two [fuel] arguments bound the
    nesting depth and the number of members by the length of the text. *)
Module JsonReader.

Definition is_json_ws (c : ascii) : bool :=
  let n := nat_of_ascii c in
  ((n =? 32) || (n =? 9) || (n =? 10) || (n =? 13))%nat.

Fixpoint skip_ws (s : string) : string :=
  match s with
  | String c r => if is_json_ws c then skip_ws r else s
  | EmptyString => EmptyString
  end.

Definition is_digit (c : ascii) : bool :=
  let n := nat_of_ascii c in ((48 <=? n) && (n <=? 57))%nat.

(** the double quote *)
Definition dquote : ascii := ascii_of_nat 34.

Definition is_hex (c : ascii) : bool :=
  let n := nat_of_ascii c in
  (is_digit c || (65 <=? n) && (n <=? 70) || (97 <=? n) && (n <=? 102))%nat.

(** the leading digits of [s] and what follows them *)
Fixpoint span_digits (s : string) : string * string :=
  match s with
  | String c r =>
    if is_digit c then let (ds, rest) := span_digits r in (String c ds, rest)
    else (EmptyString, s)
  | EmptyString => (EmptyString, EmptyString)
  end.

(** a number at the start of [s]: an optional minus sign, then 0 or a
    digit string without leading zero, then optionally a dot with digits,
    then optionally e or E, a sign and digits *)
Definition read_number (s : string) : option (string * string) :=
  let (sign, s1) :=
    match s with
    | String "-" r => ("-", r)
    | _ => ("", s)
    end in
  let int_part :=
    match s1 with
    | String "0" r => Some ("0", r)
    | String c r =>
      if is_digit c then let (ds, rest) := span_digits r in Some (String c ds, rest)
      else None
    | EmptyString => None
    end in
  match int_part with
  | None => None
  | Some (int, s2) =>
    let (frac, s3) :=
      match s2 with
      | String "." r =>
        match span_digits r with
        | (EmptyString, _) => ("", s2)
        | (ds, rest) => ("." +:+ ds, rest)
        end
      | _ => ("", s2)
      end in
    let (exp, s4) :=
      match s3 with
      | String e r =>
        if (Ascii.eqb e "e" || Ascii.eqb e "E")%bool then
          let (esign, r') :=
            match r with
            | String "+" r' => ("+", r')
            | String "-" r' => ("-", r')
            | _ => ("", r)
            end in
          match span_digits r' with
          | (EmptyString, _) => ("", s3)
          | (ds, rest) => (String e (esign +:+ ds), rest)
          end
        else ("", s3)
      | EmptyString => ("", s3)
      end in
    Some (sign +:+ int +:+ frac +:+ exp, s4)
  end.

(** the rest of a string literal after its opening quote *)
Fixpoint read_string (s : string) (acc : string) : option (string * string) :=
  match s with
  | EmptyString => None
  | String c r =>
    if Ascii.eqb c dquote then Some (rev_string acc, r)
    else if Ascii.eqb c "\" then
      match r with
      | String e r' =>
        let simple (x : ascii) := read_string r' (String x acc) in
        if Ascii.eqb e dquote then simple dquote
        else if Ascii.eqb e "\" then simple "\"%char
        else if Ascii.eqb e "/" then simple "/"%char
        else if Ascii.eqb e "b" then simple (ascii_of_nat 8)
        else if Ascii.eqb e "f" then simple (ascii_of_nat 12)
        else if Ascii.eqb e "n" then simple (ascii_of_nat 10)
        else if Ascii.eqb e "r" then simple (ascii_of_nat 13)
        else if Ascii.eqb e "t" then simple (ascii_of_nat 9)
        else if Ascii.eqb e "u" then
          match r' with
          | String h1 (String h2 (String h3 (String h4 r''))) =>
            if is_hex h1 && is_hex h2 && is_hex h3 && is_hex h4
            then read_string r''
                   (String h4 (String h3 (String h2 (String h1
                      (String "u" (String "\" acc))))))
            else None
          | _ => None
          end
        else None
      | EmptyString => None
      end
    else if (nat_of_ascii c <? 32)%nat then None
    else read_string r (String c acc)
  end.

Section Containers.
(** the reader of one value, one nesting level down *)
Variable read_value : string -> option (Json * string).

(** the items of an array after the first one has been located *)
Fixpoint read_items (fuel : nat) (s : string) (acc : list Json)
  : option (list Json * string) :=
  match fuel with
  | O => None
  | S fuel' =>
    match read_value s with
    | None => None
    | Some (v, rest) =>
      match skip_ws rest with
      | String "]" r => Some (rev (v :: acc), r)
      | String "," r => read_items fuel' (skip_ws r) (v :: acc)
      | _ => None
      end
    end
  end.

Fixpoint read_members (fuel : nat) (s : string) (acc : list (string * Json))
  : option (list (string * Json) * string) :=
  match fuel with
  | O => None
  | S fuel' =>
    match s with
    | String c r =>
      if Ascii.eqb c dquote then
        match read_string r EmptyString with
        | None => None
        | Some (key, rest) =>
          match skip_ws rest with
          | String ":" r1 =>
            match read_value (skip_ws r1) with
            | None => None
            | Some (v, rest') =>
              match skip_ws rest' with
              | String "}" r2 => Some (rev ((key, v) :: acc), r2)
              | String "," r2 => read_members fuel' (skip_ws r2) ((key, v) :: acc)
              | _ => None
              end
            end
          | _ => None
          end
        end
      else None
    | EmptyString => None
    end
  end.
End Containers.

Definition read_literal (word : string) (v : Json) (s : string)
  : option (Json * string) :=
  if startswith word s then Some (v, str_drop (String.length word) s) else None.

Fixpoint read_value (fuel : nat) (s : string) : option (Json * string) :=
  match fuel with
  | O => None
  | S fuel' =>
    match s with
    | EmptyString => None
    | String c r =>
      if Ascii.eqb c dquote then
        match read_string r EmptyString with
        | Some (str, rest) => Some (JString str, rest)
        | None => None
        end
      else if Ascii.eqb c "{" then
        match skip_ws r with
        | String "}" r' => Some (JObject [], r')
        | body =>
          match read_members (read_value fuel') (String.length s) body [] with
          | Some (members, rest) => Some (JObject members, rest)
          | None => None
          end
        end
      else if Ascii.eqb c "[" then
        match skip_ws r with
        | String "]" r' => Some (JArray [], r')
        | body =>
          match read_items (read_value fuel') (String.length s) body [] with
          | Some (items, rest) => Some (JArray items, rest)
          | None => None
          end
        end
      else if Ascii.eqb c "n" then read_literal "null" JNull s
      else if Ascii.eqb c "t" then read_literal "true" (JBool true) s
      else if Ascii.eqb c "f" then read_literal "false" (JBool false) s
      else
        match read_number s with
        | Some (lexeme, rest) => Some (JNumber lexeme, rest)
        | None =>
          if Ascii.eqb c "N" then read_literal "NaN" (JNumber "NaN") s
          else if Ascii.eqb c "I" then read_literal "Infinity" (JNumber "Infinity") s
          else if Ascii.eqb c "-" then read_literal "-Infinity" (JNumber "-Infinity") s
          else None
        end
    end
  end.


End JsonReader.






(** ** Further definitions: tiers *)


(** No character of [p] belongs to [set]. *)
Fixpoint avoids_set (set p : string) : bool :=
  match p with
  | EmptyString => true
  | String c r => negb (mem_char c set) && avoids_set set r
  end.

(** The phrases the tier classifier looks for. *)
Definition tier_phrases : list string :=
  ["strong hire"; "excellent fit"; "not recommended"; "poor fit";
   "limited alignment"].

(** ** Reading the tracker's trace, [modules/ai_client.py] *)

(** The times of the grants in a trace, oldest first. *)
Fixpoint grant_times (t : list Event) : list Q :=
  match t with
  | [] => []
  | EvGrant now :: r => now :: grant_times r
  | _ :: r => grant_times r
  end.

(** Successive times are at least [gap] apart. *)
Fixpoint spaced (gap : Q) (times : list Q) : Prop :=
  match times with
  | a :: rest =>
    match rest with
    | b :: _ => a + gap <= b
    | [] => True
    end /\ spaced gap rest
  | [] => True
  end.

Definition is_manual_reset (op : TrackerOp) : bool :=
  match op with OpManualReset => true | _ => false end.

(** The seconds slept in a trace. *)
Fixpoint slept (t : list Event) : Q :=
  match t with
  | [] => 0
  | EvSleep seconds :: r => seconds + slept r
  | _ :: r => slept r
  end.

(** An attempt after which the loop of [generate_content] goes on, unless
    it was the last one: the service failed with a rate-limit or a timeout
    message. *)
Definition retryable (env : Env) (prompt : string) (attempt : nat) : bool :=
  match api env prompt attempt with
  | ApiOk _ => false
  | ApiError e =>
    match classify e with
    | Fatal => false
    | _ => true
    end
  end.

(** What [generate_content] gives when attempt number [attempt] ends the
    loop. *)
Definition final_outcome (env : Env) (prompt : string) (max_retries attempt : nat)
    : GenError + option string :=
  match api env prompt attempt with
  | ApiOk response => inr response
  | ApiError e =>
    match classify e with
    | RateLimited => inl (RateLimitExceeded max_retries)
    | Timeout => inl (TimeoutAfter max_retries)
    | Fatal => inl (GroqApiError e)
    end
  end.

(** The service times out at every attempt. *)
Definition env_always_timeout : Env :=
  {| api := fun _ _ => ApiError "Request timeout";
     latency := fun _ => 30;
     random := fun _ => 1 # 2 |}.

(** The service rejects the request for a reason that is neither a rate
    limit nor a timeout. *)
Definition env_bad_request : Env :=
  {| api := fun _ _ => ApiError "Error code: 400 - invalid model";
     latency := fun _ => 1;
     random := fun _ => 1 # 2 |}.


(** * Properties *)

(** ** Comparisons on rationals *)

Lemma Qge_bool_true (x y : Q) : Qge_bool x y = true <-> y <= x.
Proof. unfold Qge_bool. apply Qle_bool_iff. Qed.

Lemma Qge_bool_false (x y : Q) : Qge_bool x y = false <-> x < y.
Proof.
  unfold Qge_bool. split; intros H.
  - apply Qnot_le_lt. intros Hle. apply Qle_bool_iff in Hle. congruence.
  - destruct (Qle_bool y x) eqn:E; [|reflexivity].
    apply Qle_bool_iff in E. exfalso. exact (Qlt_not_le _ _ H E).
Qed.

Lemma Qlt_bool_true (x y : Q) : Qlt_bool x y = true <-> x < y.
Proof.
  unfold Qlt_bool. rewrite negb_true_iff. apply (Qge_bool_false x y).
Qed.

Lemma Qlt_bool_false (x y : Q) : Qlt_bool x y = false <-> y <= x.
Proof.
  unfold Qlt_bool. rewrite negb_false_iff. apply (Qge_bool_true x y).
Qed.

Lemma Qgt_bool_true (x y : Q) : Qgt_bool x y = true <-> y < x.
Proof. apply (Qlt_bool_true y x). Qed.

Lemma Qgt_bool_false (x y : Q) : Qgt_bool x y = false <-> x <= y.
Proof. apply (Qlt_bool_false y x). Qed.

(** Turn every boolean comparison in the context and goal into an order fact. *)
Ltac qbool :=
  repeat match goal with
  | H : Qge_bool _ _ = true |- _ => apply Qge_bool_true in H
  | H : Qge_bool _ _ = false |- _ => apply Qge_bool_false in H
  | H : Qlt_bool _ _ = true |- _ => apply Qlt_bool_true in H
  | H : Qlt_bool _ _ = false |- _ => apply Qlt_bool_false in H
  | H : Qgt_bool _ _ = true |- _ => apply Qgt_bool_true in H
  | H : Qgt_bool _ _ = false |- _ => apply Qgt_bool_false in H
  end.

Ltac qabsurd :=
  qbool; exfalso;
  repeat match goal with
  | H : _ == _ |- _ => first [rewrite H in * | clear H]
  end;
  match goal with
  | H1 : ?a <= ?b, H2 : ?b < ?a |- _ => exact (Qlt_not_le _ _ H2 H1)
  | H1 : ?a <= ?x, H2 : ?x < ?b |- _ =>
      assert (a < b) by (eapply Qle_lt_trans; eassumption); discriminate
  | H1 : ?a < ?x, H2 : ?x < ?b |- _ =>
      assert (a < b) by (eapply Qlt_trans; eassumption); discriminate
  end.

(** ** Tier classification *)

Lemma base_tier_cases (overall : Q) :
  (80 <= overall -> base_tier overall = TOP) /\
  (60 <= overall -> overall < 80 -> base_tier overall = BEST) /\
  (40 <= overall -> overall < 60 -> base_tier overall = MODERATE) /\
  (20 <= overall -> overall < 40 -> base_tier overall = LOW) /\
  (overall < 20 -> base_tier overall = VERY_LOW).
Proof.
  unfold base_tier.
  destruct (Qge_bool overall 80) eqn:E80; destruct (Qge_bool overall 60) eqn:E60;
  destruct (Qge_bool overall 40) eqn:E40; destruct (Qge_bool overall 20) eqn:E20;
  repeat split; intros; try reflexivity; qabsurd.
Qed.

Lemma critical_avg_pipeline (sk to ex ed pr ce pq : Q) :
  critical_avg (pipeline_scores sk to ex ed pr ce pq) == (sk + to + ex) / 3.
Proof. unfold critical_avg, py_sum. simpl. field. Qed.



Lemma safeguard_le_base (overall : Q) (scores : ScoreMap) :
  (tier_rank (safeguard_tier overall scores) <= tier_rank (base_tier overall))%nat.
Proof.
  unfold safeguard_tier.
  destruct (Qlt_bool (critical_avg scores) 50), (Qlt_bool (critical_avg scores) 30),
    (base_tier overall); simpl; lia.
Qed.

(** C4, as stated, fails: with overall 85 and a critical average of 40 the
    safeguard lowers TOP to MODERATE, and a rationale containing the phrase
    "strong hire" then puts the tier back to TOP, two steps up and above the
    safeguard's MODERATE. *)
Lemma phrase_step_overrides_safeguard :
  let scores := pipeline_scores 40 40 40 100 100 100 100 in
  (base_tier 85 = TOP /\
   safeguard_tier 85 scores = MODERATE /\
   determine_candidate_tier 85 scores (Some "Strong hire.") = TOP) /\
  ~ phrase_step_keeps_safeguard /\
  ~ phrase_step_at_most_one_step.
Proof.
  intros scores.
  assert (Hc : base_tier 85 = TOP /\ safeguard_tier 85 scores = MODERATE /\
               determine_candidate_tier 85 scores (Some "Strong hire.") = TOP).
  { repeat split; vm_compute; reflexivity. }
  split; [exact Hc|].
  destruct Hc as (Hb & Hs & Hd).
  split.
  - intros H. specialize (H 85 scores "Strong hire.").
    rewrite Hb, Hs, Hd in H. simpl in H. specialize (H eq_refl eq_refl). lia.
  - intros H. specialize (H 85 scores "Strong hire."). cbv zeta in H.
    rewrite Hs, Hd in H. simpl in H. lia.
Qed.

(** C4, amended. The free-text step sets the tier from the overall score
    alone. With a strong-positive phrase the tier is TOP when overall >= 70
    and BEST when 60 <= overall < 70, also for a candidate the safeguard had
    lowered to MODERATE, and stays as the safeguard left it below 60; it is
    then never below the safeguarded tier and at most one step above the
    threshold tier. With a strong-negative phrase and no positive one the
    tier is LOW when overall < 50 and MODERATE otherwise. With neither
    phrase, or with an empty text, the safeguarded tier stands. *)
Theorem phrase_step_characterised (overall : Q) (scores : ScoreMap) (text : string) :
  let guarded := safeguard_tier overall scores in
  let tier := determine_candidate_tier overall scores (Some text) in
  let low := lower text in
  (has_positive_phrase low = true ->
     (70 <= overall -> tier = TOP) /\
     (60 <= overall -> overall < 70 -> tier = BEST) /\
     (overall < 60 -> tier = guarded) /\
     (tier_rank guarded <= tier_rank tier)%nat /\
     (tier_rank tier <= tier_rank (base_tier overall) + 1)%nat) /\
  (has_positive_phrase low = false -> has_negative_phrase low = true ->
     (overall < 50 -> tier = LOW) /\
     (50 <= overall -> tier = MODERATE)) /\
  (has_positive_phrase low = false -> has_negative_phrase low = false ->
     tier = guarded) /\
  (text = "" -> tier = guarded).
Proof.
  intros guarded tier low.
  assert (Ht : truthy text = false -> text = "").
  { destruct text; [reflexivity | discriminate]. }
  assert (Hlow : text = "" -> has_positive_phrase low = false
                              /\ has_negative_phrase low = false).
  { intros ->. split; reflexivity. }
  pose proof (safeguard_le_base overall scores) as Hle. fold guarded in Hle.
  pose proof (base_tier_cases overall) as (B80 & B60 & B40 & B20 & B0).
  subst tier. unfold determine_candidate_tier. fold guarded. fold low.
  split; [|split; [|split]].
  - intros Hp. destruct (truthy text) eqn:Et.
    2:{ destruct (Hlow (Ht eq_refl)) as [Hp' _]. congruence. }
    rewrite Hp.
    destruct (Qge_bool overall 70) eqn:E70; [|destruct (Qge_bool overall 60) eqn:E60];
      qbool.
    + split; [reflexivity|]. split; [intros; qabsurd|]. split; [intros; qabsurd|].
      split; [destruct guarded; simpl; lia|].
      destruct (Qge_bool overall 80) eqn:E80; qbool.
      * rewrite (B80 E80). simpl. lia.
      * assert (H60 : 60 <= overall).
        { eapply Qle_trans; [|exact E70]. discriminate. }
        rewrite (B60 H60 E80). simpl. lia.
    + assert (H80 : overall < 80) by (eapply Qlt_trans; [exact E70 | reflexivity]).
      rewrite (B60 E60 H80) in *.
      split; [intros; qabsurd|]. split; [reflexivity|]. split; [intros; qabsurd|].
      split; [destruct guarded; simpl in *; lia | simpl; lia].
    + split; [intros; qabsurd|]. split; [intros; qabsurd|]. split; [reflexivity|].
      split; lia.
  - intros Hp Hn. destruct (truthy text) eqn:Et.
    2:{ destruct (Hlow (Ht eq_refl)) as [_ Hn']. congruence. }
    rewrite Hp, Hn.
    destruct (Qlt_bool overall 50) eqn:E50; qbool.
    + split; [reflexivity | intros; qabsurd].
    + split; [intros; qabsurd | reflexivity].
  - intros Hp Hn. destruct (truthy text); [|reflexivity].
    rewrite Hp, Hn. reflexivity.
  - intros ->. reflexivity.
Qed.

Lemma phrase_step_characterised_witness :
  determine_candidate_tier 85 (pipeline_scores 40 40 40 100 100 100 100)
    (Some "Strong hire.") = TOP
  /\ determine_candidate_tier 45 (pipeline_scores 90 90 90 0 0 0 0)
       (Some "Not recommended.") = LOW.
Proof.
  split.
  - pose proof (phrase_step_characterised 85
                  (pipeline_scores 40 40 40 100 100 100 100) "Strong hire.") as H.
    cbv zeta in H. destruct H as (H & _).
    destruct (H eq_refl) as (H70 & _). apply H70. discriminate.
  - pose proof (phrase_step_characterised 45
                  (pipeline_scores 90 90 90 0 0 0 0) "Not recommended.") as H.
    cbv zeta in H. destruct H as (_ & H & _).
    destruct (H eq_refl eq_refl) as (H50 & _). apply H50. reflexivity.
Defined.

(** ** Strings: substrings of a text assembled from pieces *)

Lemma append_assoc (a b c : string) : (a +:+ b) +:+ c = a +:+ (b +:+ c).
Proof. induction a as [|x a IH]; simpl; [reflexivity | now rewrite IH]. Qed.

Lemma lower_app (a b : string) : lower (a +:+ b) = lower a +:+ lower b.
Proof. induction a as [|x a IH]; simpl; [reflexivity | now rewrite IH]. Qed.

Lemma startswith_app (p a b : string) :
  startswith p a = true -> startswith p (a +:+ b) = true.
Proof.
  revert a. induction p as [|x p IH]; intros a H; [reflexivity|].
  destruct a as [|y a]; simpl in *; [discriminate|].
  apply andb_true_iff in H as [-> H]. simpl. apply IH, H.
Qed.

Lemma startswith_split (p s : string) :
  startswith p s = true -> exists r, s = p +:+ r.
Proof.
  revert s. induction p as [|x p IH]; intros s H; [exists s; reflexivity|].
  destruct s as [|y s]; simpl in H; [discriminate|].
  apply andb_true_iff in H as [Hxy H]. apply Ascii.eqb_eq in Hxy. subst y.
  destruct (IH s H) as [r ->]. exists r. reflexivity.
Qed.

Lemma str_in_app_l (p a b : string) :
  str_in p a = true -> str_in p (a +:+ b) = true.
Proof.
  induction a as [|x a IH]; simpl; intros H.
  - destruct p; [|discriminate]. destruct b; reflexivity.
  - destruct (startswith p (String x a)) eqn:E.
    + change (String x (a +:+ b)) with (String x a +:+ b).
      rewrite (startswith_app _ _ b E). reflexivity.
    + rewrite (IH H). destruct (startswith p (String x (a +:+ b))); reflexivity.
Qed.

Lemma str_in_split (p s : string) :
  str_in p s = true -> exists a b, s = a +:+ p +:+ b.
Proof.
  induction s as [|x s IH]; simpl; intros H.
  - destruct (startswith p "") eqn:E; [|discriminate].
    destruct (startswith_split _ _ E) as [r Hr]. exists "", r. exact Hr.
  - destruct (startswith p (String x s)) eqn:E.
    + destruct (startswith_split _ _ E) as [r Hr]. exists "", r. exact Hr.
    + destruct (IH H) as (a & b & ->). exists (String x a), b. reflexivity.
Qed.

Section Pairs.
Variables c1 c2 : ascii.

Lemma has_pair_app (prev : bool) (a b : string) :
  has_pair c1 c2 prev (a +:+ b)
  = has_pair c1 c2 prev a || has_pair c1 c2 (ends_with c1 prev a) b.
Proof.
  revert prev. induction a as [|x a IH]; intros prev; simpl; [reflexivity|].
  rewrite IH. now rewrite orb_assoc.
Qed.

Lemma ends_with_app (prev : bool) (a b : string) :
  ends_with c1 prev (a +:+ b) = ends_with c1 (ends_with c1 prev a) b.
Proof.
  revert prev. induction a as [|x a IH]; intros prev; simpl; [reflexivity|].
  apply IH.
Qed.

Lemma has_pair_weaken (prev : bool) (s : string) :
  has_pair c1 c2 true s = false -> has_pair c1 c2 prev s = false.
Proof.
  destruct s as [|x s]; simpl; [reflexivity|].
  destruct prev; [tauto|]. intros H. apply orb_false_iff in H. tauto.
Qed.

Lemma has_pair_strengthen (prev : bool) (s : string) :
  has_pair c1 c2 false s = true -> has_pair c1 c2 prev s = true.
Proof.
  destruct s as [|x s]; simpl; [discriminate|].
  intros ->. apply orb_true_r.
Qed.

(** A text that contains a phrase contains every adjacent pair of the phrase. *)
Lemma str_in_has_pair (p s : string) :
  has_pair c1 c2 false p = true -> str_in p s = true ->
  has_pair c1 c2 false s = true.
Proof.
  intros Hp Hs. destruct (str_in_split _ _ Hs) as (a & b & ->).
  rewrite !has_pair_app. rewrite (has_pair_strengthen _ _ Hp).
  rewrite orb_true_l. apply orb_true_r.
Qed.

Lemma has_pair_all_in (set : string) (prev : bool) (s : string) :
  set_avoids c2 set -> all_in set s = true ->
  has_pair c1 c2 prev (lower s) = false.
Proof.
  intros Hset. revert prev. induction s as [|x s IH]; intros prev; simpl;
    [reflexivity|].
  intros H. apply andb_true_iff in H as [Hx Hs].
  rewrite (Hset _ Hx), andb_false_r. simpl. apply IH, Hs.
Qed.

(** Joining pieces: [q] is the scanner state after the separator. *)
Lemma has_pair_join (sep : string) (q : bool) (l : list string) :
  has_pair c1 c2 true sep = false ->
  (forall prev, ends_with c1 prev sep = q) ->
  Forall (fun e => has_pair c1 c2 q e = false) l ->
  has_pair c1 c2 q (join sep l) = false.
Proof.
  intros Hsep Hq Hl. induction Hl as [|e l He Hl IH]; [reflexivity|].
  destruct l as [|e' l]; [exact He|].
  change (join sep (e :: e' :: l)) with (e +:+ sep +:+ join sep (e' :: l)).
  rewrite !has_pair_app, He, (has_pair_weaken _ _ Hsep), Hq, IH.
  reflexivity.
Qed.
End Pairs.

Lemma mem_char_cases (d : ascii) (set : string) (P : ascii -> Prop) :
  mem_char d set = true ->
  fold_right (fun c acc => P c /\ acc) True (list_ascii_of_string set) -> P d.
Proof.
  induction set as [|x set IH]; simpl; [discriminate|].
  intros H [Hx Hr]. apply orb_true_iff in H as [H|H].
  - apply Ascii.eqb_eq in H. subst. exact Hx.
  - apply IH; assumption.
Qed.

Lemma lower_join (sep : string) (l : list string) :
  lower (join sep l) = join (lower sep) (map lower l).
Proof.
  induction l as [|e l IH]; [reflexivity|].
  destruct l as [|e' l]; [reflexivity|].
  change (join sep (e :: e' :: l)) with (e +:+ sep +:+ join sep (e' :: l)).
  rewrite !lower_app, IH. reflexivity.
Qed.

Lemma all_in_app (set a b : string) :
  all_in set (a +:+ b) = all_in set a && all_in set b.
Proof.
  induction a as [|x a IH]; simpl; [reflexivity|].
  now rewrite IH, andb_assoc.
Qed.

(** ** Formatted numbers *)

Lemma string_of_uint_digits (u : Decimal.uint) :
  all_in number_chars (NilEmpty.string_of_uint u) = true.
Proof. induction u; simpl; auto. Qed.

Lemma digits_of_Z_digits (z : Z) : all_in number_chars (digits_of_Z z) = true.
Proof.
  unfold digits_of_Z, NilZero.string_of_uint.
  destruct (N.to_uint (Z.to_N z)) eqn:E; try reflexivity;
    rewrite <- E; apply string_of_uint_digits.
Qed.

Lemma fmt_1f_chars (q : Q) : all_in number_chars (fmt_1f q) = true.
Proof.
  unfold fmt_1f. rewrite !all_in_app, !digits_of_Z_digits.
  destruct (Qlt_bool q 0); reflexivity.
Qed.

Lemma number_chars_avoid (c2 : ascii) :
  forallb (fun d => negb (Ascii.eqb (lower_ascii d) c2))
          (list_ascii_of_string number_chars) = true ->
  set_avoids c2 number_chars.
Proof.
  intros H d Hd.
  apply (mem_char_cases d number_chars
           (fun d => Ascii.eqb (lower_ascii d) c2 = false) Hd).
  unfold number_chars in *. simpl in *.
  repeat match goal with
  | H : _ && _ = true |- _ => apply andb_true_iff in H as [? ?]
  | H : negb _ = true |- _ => apply negb_true_iff in H
  end.
  repeat split; assumption.
Qed.

(** ** Stable sorting *)

Section StableSortFacts.
Context {A : Type} (before : A -> A -> bool).

Lemma insert_sorted_perm (x : A) (l : list A) :
  Permutation (insert_sorted before x l) (x :: l).
Proof.
  induction l as [|y l IH]; simpl; [reflexivity|].
  destruct (before y x); [|reflexivity].
  rewrite IH. apply perm_swap.
Qed.

Lemma stable_sort_perm (l : list A) : Permutation (stable_sort before l) l.
Proof.
  induction l as [|x l IH]; simpl; [reflexivity|].
  rewrite insert_sorted_perm. now constructor.
Qed.

Lemma stable_sort_length (l : list A) :
  length (stable_sort before l) = length l.
Proof. apply Permutation_length, stable_sort_perm. Qed.
End StableSortFacts.

Lemma Forall_firstn_sorted {A : Type} (P : A -> Prop) (before : A -> A -> bool)
    (n : nat) (l : list A) :
  Forall P l -> Forall P (firstn n (stable_sort before l)).
Proof.
  intros H. apply Forall_take.
  eapply Permutation_Forall; [|exact H].
  symmetry. apply stable_sort_perm.
Qed.

(** ** The fallback rationale and the tier it leads to *)

Section FallbackPairs.
Variables c1 c2 : ascii.
Variable q : bool.
Hypothesis lit1_ok : has_pair c1 c2 false (lower weak_lit1) = false.
Hypothesis lit2_ok : has_pair c1 c2 true (lower weak_lit2) = false.
Hypothesis lit3_ok : has_pair c1 c2 true (lower weak_lit3) = false.
Hypothesis lit2_end : forall prev, ends_with c1 prev (lower weak_lit2) = q.
Hypothesis sep_ok : has_pair c1 c2 true ", " = false.
Hypothesis sep_end : forall prev, ends_with c1 prev ", " = q.
Hypothesis numbers_ok : set_avoids c2 number_chars.
Hypothesis labels_ok :
  Forall (fun k => has_pair c1 c2 q (lower (category_label k)) = false)
         category_names.

Lemma weak_names_no_pair (scores : ScoreMap) :
  known_categories scores ->
  has_pair c1 c2 q (lower (weak_names_of scores)) = false.
Proof.
  intros Hk. unfold weak_names_of. rewrite lower_join.
  apply has_pair_join; [exact sep_ok | exact sep_end |].
  rewrite Forall_map, Forall_map.
  apply Forall_firstn_sorted.
  eapply Forall_impl; [exact Hk|].
  intros [k v] Hin. simpl in *.
  rewrite Forall_forall in labels_ok. apply labels_ok.
  apply list_elem_of_In. exact Hin.
Qed.

Lemma fallback_weak_no_pair (overall : Q) (scores : ScoreMap) :
  known_categories scores ->
  has_pair c1 c2 false
    (lower (fallback_weak (fmt_1f overall) (weak_names_of scores))) = false.
Proof.
  intros Hk. unfold fallback_weak.
  rewrite !lower_app, !has_pair_app.
  rewrite lit1_ok.
  rewrite (has_pair_all_in c1 c2 number_chars _ _ numbers_ok (fmt_1f_chars overall)).
  rewrite (has_pair_weaken _ _ _ _ lit2_ok).
  rewrite lit2_end, (weak_names_no_pair scores Hk).
  rewrite (has_pair_weaken _ _ _ _ lit3_ok).
  reflexivity.
Qed.
End FallbackPairs.

Lemma fallback_weak_no_positive (overall : Q) (scores : ScoreMap) :
  known_categories scores ->
  has_positive_phrase
    (lower (fallback_weak (fmt_1f overall) (weak_names_of scores))) = false.
Proof.
  intros Hk. unfold has_positive_phrase. apply orb_false_iff. split.
  - destruct (str_in "strong hire" _) eqn:E; [|reflexivity].
    apply (str_in_has_pair " " "h") in E; [|reflexivity].
    rewrite (fallback_weak_no_pair " " "h" true) in E; try discriminate;
      try reflexivity; try exact Hk.
    + apply number_chars_avoid. reflexivity.
    + unfold category_names. repeat constructor.
  - destruct (str_in "excellent fit" _) eqn:E; [|reflexivity].
    apply (str_in_has_pair "x" "c") in E; [|reflexivity].
    rewrite (fallback_weak_no_pair "x" "c" false) in E; try discriminate;
      try reflexivity; try exact Hk.
    + apply number_chars_avoid. reflexivity.
    + unfold category_names. repeat constructor.
Qed.

Lemma fallback_weak_limited_alignment (overall names : string) :
  str_in "limited alignment" (fallback_weak overall names) = true /\
  str_in "limited alignment" (lower (fallback_weak overall names)) = true.
Proof.
  unfold fallback_weak. split.
  - apply str_in_app_l. reflexivity.
  - rewrite lower_app. apply str_in_app_l. reflexivity.
Qed.

(** C10. When the local fallback rationale is used for a candidate whose
    overall score is below 55, the text contains "limited alignment", it
    holds a strong-negative phrase and no strong-positive one for the tier
    classifier, and the final tier is LOW when overall < 50 and MODERATE
    otherwise. A candidate with overall in [40,50) and a critical average of
    at least 50 is MODERATE without rationale text and LOW with the
    fallback text. *)
Theorem fallback_text_forces_tier (overall : Q) (scores : ScoreMap) :
  known_categories scores ->
  overall < 55 ->
  exists text,
    generate_fallback_reasoning overall scores = Returned text /\
    str_in "limited alignment" text = true /\
    has_negative_phrase (lower text) = true /\
    has_positive_phrase (lower text) = false /\
    tier_with_fallback overall scores
      = Returned (if Qlt_bool overall 50 then LOW else MODERATE) /\
    (40 <= overall -> overall < 50 -> 50 <= critical_avg scores ->
       determine_candidate_tier overall scores None = MODERATE /\
       determine_candidate_tier overall scores (Some text) = LOW).
Proof.
  intros Hk H55.
  exists (fallback_weak (fmt_1f overall) (weak_names_of scores)).
  assert (Hgen : generate_fallback_reasoning overall scores
                 = Returned (fallback_weak (fmt_1f overall) (weak_names_of scores))).
  { unfold generate_fallback_reasoning.
    assert (H75 : overall < 75) by (eapply Qlt_trans; [exact H55 | reflexivity]).
    apply Qge_bool_false in H75. apply Qge_bool_false in H55.
    rewrite H75, H55. reflexivity. }
  destruct (fallback_weak_limited_alignment (fmt_1f overall) (weak_names_of scores))
    as [Hraw Hlow].
  pose proof (fallback_weak_no_positive overall scores Hk) as Hpos.
  assert (Hneg : has_negative_phrase
                   (lower (fallback_weak (fmt_1f overall) (weak_names_of scores)))
                 = true).
  { unfold has_negative_phrase. rewrite Hlow. apply orb_true_r. }
  assert (Htier : determine_candidate_tier overall scores
                    (Some (fallback_weak (fmt_1f overall) (weak_names_of scores)))
                  = if Qlt_bool overall 50 then LOW else MODERATE).
  { unfold determine_candidate_tier.
    replace (truthy (fallback_weak (fmt_1f overall) (weak_names_of scores)))
      with true by reflexivity.
    rewrite Hpos, Hneg. reflexivity. }
  repeat (split; [assumption|]).
  split.
  - unfold tier_with_fallback. rewrite Hgen, Htier. reflexivity.
  - intros H40 H50 Havg. split.
    + assert (H60 : overall < 60) by (eapply Qlt_trans; [exact H50 | reflexivity]).
      destruct (base_tier_cases overall) as (_ & _ & Hb & _).
      unfold determine_candidate_tier, safeguard_tier.
      rewrite (Hb H40 H60).
      assert (H30 : 30 <= critical_avg scores).
      { eapply Qle_trans; [|exact Havg]. discriminate. }
      apply Qlt_bool_false in Havg. apply Qlt_bool_false in H30.
      rewrite Havg, H30. reflexivity.
    + rewrite Htier. apply Qlt_bool_true in H50. rewrite H50. reflexivity.
Qed.

Lemma pipeline_scores_known (sk to ex ed pr ce pq : Q) :
  known_categories (pipeline_scores sk to ex ed pr ce pq).
Proof.
  unfold known_categories, pipeline_scores, category_names.
  repeat constructor; simpl; tauto.
Qed.

Lemma fallback_text_forces_tier_witness :
  exists text,
    generate_fallback_reasoning 45 (pipeline_scores 90 90 90 0 0 0 0)
      = Returned text /\
    determine_candidate_tier 45 (pipeline_scores 90 90 90 0 0 0 0) None = MODERATE /\
    determine_candidate_tier 45 (pipeline_scores 90 90 90 0 0 0 0) (Some text) = LOW.
Proof.
  destruct (fallback_text_forces_tier 45 (pipeline_scores 90 90 90 0 0 0 0))
    as (text & Hgen & _ & _ & _ & _ & Hex).
  - apply pipeline_scores_known.
  - reflexivity.
  - exists text. split; [exact Hgen|].
    apply Hex.
    + discriminate.
    + reflexivity.
    + rewrite critical_avg_pipeline. discriminate.
Defined.

(** ** Sorting by a key *)

Section PySortedFacts.
Context {A : Type} (key : A -> Q).

Lemma py_sorted_perm (reverse : bool) (l : list A) :
  Permutation (py_sorted key reverse l) l.
Proof. apply stable_sort_perm. Qed.

(** With [reverse=True] the keys come out in non-increasing order. *)
Lemma insert_desc (x : A) (l : list A) :
  StronglySorted (fun a b => key b <= key a) l ->
  StronglySorted (fun a b => key b <= key a)
    (insert_sorted (fun y x => Qlt_bool (key x) (key y)) x l).
Proof.
  induction 1 as [|y l Hl IH Hy]; simpl.
  - repeat constructor.
  - destruct (Qlt_bool (key x) (key y)) eqn:E; qbool.
    + constructor; [exact IH|].
      eapply Permutation_Forall.
      * symmetry. apply insert_sorted_perm.
      * constructor; [apply Qlt_le_weak; exact E | exact Hy].
    + constructor; [constructor; assumption|].
      constructor; [exact E|].
      eapply Forall_impl; [exact Hy|].
      intros z Hz. simpl in Hz. eapply Qle_trans; eassumption.
Qed.

Lemma py_sorted_desc (l : list A) :
  StronglySorted (fun a b => key b <= key a) (py_sorted key true l).
Proof.
  unfold py_sorted. induction l as [|x l IH]; simpl.
  - constructor.
  - apply insert_desc. exact IH.
Qed.

(** Stability: the elements with any one key value keep their order. *)
Lemma insert_stable (reverse : bool) (v : Q) (x : A) (l : list A) :
  List.filter (fun a => Qeq_bool (key a) v)
    (insert_sorted
       (fun y x => if reverse then Qlt_bool (key x) (key y)
                   else Qlt_bool (key y) (key x)) x l)
  = List.filter (fun a => Qeq_bool (key a) v) (x :: l).
Proof.
  induction l as [|y l IH]; [reflexivity|].
  cbn [insert_sorted].
  destruct (if reverse then Qlt_bool (key x) (key y) else Qlt_bool (key y) (key x))
    eqn:E; [|reflexivity].
  cbn [List.filter] in *. rewrite IH.
  destruct (Qeq_bool (key x) v) eqn:Ex, (Qeq_bool (key y) v) eqn:Ey;
    try reflexivity.
  exfalso. apply Qeq_bool_iff in Ex, Ey.
  destruct reverse; qbool; rewrite Ex, Ey in E; exact (Qlt_irrefl _ E).
Qed.

Lemma py_sorted_stable (reverse : bool) (v : Q) (l : list A) :
  List.filter (fun a => Qeq_bool (key a) v) (py_sorted key reverse l)
  = List.filter (fun a => Qeq_bool (key a) v) l.
Proof.
  unfold py_sorted. induction l as [|x l IH]; [reflexivity|].
  cbn [stable_sort foldr]. fold (stable_sort (A:=A)).
  rewrite insert_stable. cbn [List.filter].
  unfold stable_sort in IH. rewrite IH. reflexivity.
Qed.

(** The outcome of a stable sort is determined: a list in non-increasing key
    order that keeps, for every key value, the elements with that key in
    their original order, is the list computed by [py_sorted]. *)
Lemma stable_desc_unique (l1 l2 : list A) :
  StronglySorted (fun a b => key b <= key a) l1 ->
  StronglySorted (fun a b => key b <= key a) l2 ->
  (forall v, List.filter (fun a => Qeq_bool (key a) v) l1
             = List.filter (fun a => Qeq_bool (key a) v) l2) ->
  l1 = l2.
Proof.
  intros H1. revert l2. induction H1 as [|x l1 Hs1 IH Hx]; intros l2 H2 Hf.
  - destruct l2 as [|y l2]; [reflexivity|].
    specialize (Hf (key y)). simpl in Hf.
    rewrite (proj2 (Qeq_bool_iff _ _) (Qeq_refl _)) in Hf. discriminate.
  - destruct l2 as [|y l2].
    { specialize (Hf (key x)). simpl in Hf.
      rewrite (proj2 (Qeq_bool_iff _ _) (Qeq_refl _)) in Hf. discriminate. }
    apply StronglySorted_inv in H2 as [Hs2 Hy].
    assert (Hxy : key x == key y).
    { apply Qle_antisym.
      - pose proof (Hf (key x)) as Hv. simpl in Hv.
        rewrite (proj2 (Qeq_bool_iff _ _) (Qeq_refl _)) in Hv.
        assert (Hin : In x (List.filter (fun a => Qeq_bool (key a) (key x)) (y :: l2))).
        { simpl. rewrite <- Hv. now left. }
        apply List.filter_In in Hin as [[<- | Hin] _]; [apply Qle_refl|].
        rewrite List.Forall_forall in Hy. apply Hy, Hin.
      - pose proof (Hf (key y)) as Hv. simpl in Hv.
        rewrite (proj2 (Qeq_bool_iff (key y) _) (Qeq_refl _)) in Hv.
        assert (Hin : In y (List.filter (fun a => Qeq_bool (key a) (key y)) (x :: l1))).
        { simpl. rewrite Hv. now left. }
        apply List.filter_In in Hin as [[<- | Hin] _]; [apply Qle_refl|].
        rewrite List.Forall_forall in Hx. apply Hx, Hin. }
    assert (Exy : x = y).
    { pose proof (Hf (key x)) as Hv. simpl in Hv.
      rewrite (proj2 (Qeq_bool_iff _ _) (Qeq_refl _)) in Hv.
      rewrite (proj2 (Qeq_bool_iff (key y) (key x)) (Qeq_sym _ _ Hxy)) in Hv.
      congruence. }
    subst y. f_equal. apply IH; [exact Hs2|].
    intros v. specialize (Hf v). simpl in Hf.
    destruct (Qeq_bool (key x) v); congruence.
Qed.

Lemma py_sorted_unique (l sorted : list A) :
  StronglySorted (fun a b => key b <= key a) sorted ->
  (forall v, List.filter (fun a => Qeq_bool (key a) v) sorted
             = List.filter (fun a => Qeq_bool (key a) v) l) ->
  sorted = py_sorted key true l.
Proof.
  intros Hs Hf. apply stable_desc_unique; [exact Hs | apply py_sorted_desc |].
  intros v. rewrite py_sorted_stable. apply Hf.
Qed.
End PySortedFacts.

(** ** Ranking *)

Lemma same_scores_refl (e : EvalResult) : same_scores e e.
Proof. exists (rank e). destruct e; reflexivity. Qed.

Lemma same_scores_set_rank (k : nat) (e e' : EvalResult) :
  same_scores e e' -> same_scores e (set_rank k e').
Proof. intros [k' ->]. exists (Some k). reflexivity. Qed.

Lemma assign_ranks_other (h : Store) (start : nat) (refs : list nat) (r : nat) :
  r ∉ refs -> assign_ranks h start refs !! r = h !! r.
Proof.
  revert h start. induction refs as [|x refs IH]; intros h start Hr; [reflexivity|].
  apply not_elem_of_cons in Hr as [Hx Hr]. simpl.
  rewrite IH by exact Hr. apply lookup_alter_ne. congruence.
Qed.

Lemma assign_ranks_at (h : Store) (start : nat) (refs : list nat)
    (i r : nat) (e : EvalResult) :
  NoDup refs -> refs !! i = Some r -> h !! r = Some e ->
  assign_ranks h start refs !! r = Some (set_rank (start + i) e).
Proof.
  revert h start i. induction refs as [|x refs IH]; intros h start i Hnd Hi He;
    [discriminate|].
  apply NoDup_cons in Hnd as [Hx Hnd]. simpl.
  destruct i as [|i]; simpl in Hi.
  - injection Hi as ->.
    rewrite assign_ranks_other by exact Hx.
    rewrite lookup_alter_eq, He. simpl. now rewrite Nat.add_0_r.
  - assert (Hne : x <> r).
    { intros ->. apply Hx. eapply list_elem_of_lookup_2. exact Hi. }
    rewrite (IH _ _ i Hnd Hi).
    + f_equal. f_equal. lia.
    + rewrite lookup_alter_ne by exact Hne. exact He.
Qed.

Lemma assign_ranks_same_scores (h : Store) (start : nat) (refs : list nat)
    (r : nat) (e : EvalResult) :
  h !! r = Some e ->
  exists e', assign_ranks h start refs !! r = Some e' /\ same_scores e e'.
Proof.
  revert h start e. induction refs as [|x refs IH]; intros h start e He; simpl.
  - exists e. split; [exact He | apply same_scores_refl].
  - destruct (decide (x = r)) as [->|Hne].
    + destruct (IH (alter (set_rank start) r h) (S start) (set_rank start e))
        as (e' & He' & Hs).
      { rewrite lookup_alter_eq, He. reflexivity. }
      exists e'. split; [exact He'|].
      destruct Hs as [k ->]. exists k. reflexivity.
    + apply IH. rewrite lookup_alter_ne by exact Hne. exact He.
Qed.

Lemma ranked_example :
  let h := store_of_scores 0 [90; 90; 70] in
  let out := rank_candidates h [0; 1; 2]%nat in
  out.2 = [0; 1; 2]%nat /\
  map (rank_of out.1) out.2 = [Some 1; Some 2; Some 3]%nat /\
  map (score_of out.1) out.2 = [90; 90; 70].
Proof. vm_compute. repeat split. Qed.

(** C6. For a batch of distinct result objects, [rank_candidates] returns the
    batch sorted by overall score in non-increasing order, results with equal
    scores keeping their original relative order; the result at position i
    (from 0) of the returned list carries rank i+1, so ranks run 1, 2, 3, ...
    without gaps or repeats whatever the ties; and every stored result keeps
    all its fields but the rank. Scores [90, 90, 70] give ranks [1, 2, 3]
    with the tied pair in its original order. *)
Theorem rank_candidates_stable_dense (h : Store) (evaluation_results : list nat) :
  NoDup evaluation_results ->
  Forall (fun r => is_Some (h !! r)) evaluation_results ->
  let h' := (rank_candidates h evaluation_results).1 in
  let ranked := (rank_candidates h evaluation_results).2 in
  Permutation ranked evaluation_results /\
  StronglySorted (fun a b => score_of h b <= score_of h a) ranked /\
  (forall v, List.filter (fun r => Qeq_bool (score_of h r) v) ranked
             = List.filter (fun r => Qeq_bool (score_of h r) v) evaluation_results) /\
  (forall i r, ranked !! i = Some r -> rank_of h' r = Some (S i)) /\
  (forall r e, h !! r = Some e ->
     exists e', h' !! r = Some e' /\ same_scores e e') /\
  (let ex := rank_candidates (store_of_scores 0 [90; 90; 70]) [0; 1; 2]%nat in
   ex.2 = [0; 1; 2]%nat /\
   map (rank_of ex.1) ex.2 = [Some 1; Some 2; Some 3]%nat /\
   map (score_of ex.1) ex.2 = [90; 90; 70]).
Proof.
  intros Hnd Hall h' ranked. subst h' ranked. unfold rank_candidates. simpl.
  pose proof (py_sorted_perm (score_of h) true evaluation_results) as Hperm.
  split; [exact Hperm|].
  split; [apply py_sorted_desc|].
  split; [intros v; apply py_sorted_stable|].
  split; [|split].
  - intros i r Hi.
    assert (Hin : r ∈ evaluation_results).
    { rewrite <- Hperm. eapply list_elem_of_lookup_2. exact Hi. }
    rewrite Forall_forall in Hall.
    destruct (Hall r Hin) as [e He].
    unfold rank_of.
    rewrite (assign_ranks_at h 1 _ i r e); [reflexivity | | exact Hi | exact He].
    rewrite Hperm. exact Hnd.
  - intros r e He. apply assign_ranks_same_scores. exact He.
  - exact ranked_example.
Qed.

Lemma rank_candidates_stable_dense_witness :
  let h := store_of_scores 0 [70; 90; 90] in
  let ranked := (rank_candidates h [0; 1; 2]%nat).2 in
  let h' := (rank_candidates h [0; 1; 2]%nat).1 in
  ranked = [1; 2; 0]%nat /\
  forall i r, ranked !! i = Some r -> rank_of h' r = Some (S i).
Proof.
  intros h ranked h'.
  split; [vm_compute; reflexivity|].
  assert (Hnd : NoDup [0; 1; 2]%nat).
  { apply (bool_decide_unpack (NoDup [0; 1; 2]%nat)). vm_compute. exact I. }
  assert (Hall : Forall (fun r => is_Some (h !! r)) [0; 1; 2]%nat).
  { repeat constructor; vm_compute; eexists; reflexivity. }
  pose proof (rank_candidates_stable_dense h [0; 1; 2]%nat Hnd Hall) as H.
  cbv zeta in H. destruct H as (_ & _ & _ & H & _). exact H.
Defined.

(** ** Sums and rounding *)

Lemma fold_left_Qplus (l : list Q) (a : Q) :
  fold_left Qplus l a == a + py_sum l.
Proof.
  unfold py_sum. revert a. induction l as [|x l IH]; intros a; simpl.
  - ring.
  - rewrite IH, (IH (0 + x)). ring.
Qed.

Lemma py_sum_cons (x : Q) (l : list Q) : py_sum (x :: l) == x + py_sum l.
Proof. unfold py_sum at 1. simpl. rewrite fold_left_Qplus. ring. Qed.

Lemma py_sum_app (a b : list Q) : py_sum (a ++ b) == py_sum a + py_sum b.
Proof.
  induction a as [|x a IH]; simpl.
  - unfold py_sum at 2. simpl. ring.
  - rewrite !py_sum_cons, IH. ring.
Qed.

Lemma Qlt_bool_comp (x x' y y' : Q) :
  x == x' -> y == y' -> Qlt_bool x y = Qlt_bool x' y'.
Proof.
  intros Hx Hy.
  destruct (Qlt_bool x y) eqn:E, (Qlt_bool x' y') eqn:E'; try reflexivity; qbool.
  - rewrite Hx, Hy in E. exfalso. exact (Qlt_not_le _ _ E E').
  - rewrite Hx, Hy in E. exfalso. exact (Qlt_not_le _ _ E' E).
Qed.

Lemma round_half_even_comp (x y : Q) :
  x == y -> round_half_even x = round_half_even y.
Proof.
  intros H. unfold round_half_even, Qgt_bool.
  fold (Qlt_bool (1 # 2) (x - inject_Z (Qfloor x))).
  fold (Qlt_bool (1 # 2) (y - inject_Z (Qfloor y))).
  rewrite (Qfloor_comp _ _ H).
  assert (Hr : x - inject_Z (Qfloor y) == y - inject_Z (Qfloor y)).
  { unfold Qminus. apply Qplus_comp; [exact H | reflexivity]. }
  rewrite (Qlt_bool_comp _ _ (1 # 2) (1 # 2) Hr (Qeq_refl _)).
  rewrite (Qlt_bool_comp (1 # 2) (1 # 2) _ _ (Qeq_refl _) Hr).
  reflexivity.
Qed.

Lemma round_half_even_Z (k : Z) : round_half_even (inject_Z k) = k.
Proof.
  unfold round_half_even. rewrite Qfloor_Z.
  replace (Qlt_bool (inject_Z k - inject_Z k) (1 # 2)) with true; [reflexivity|].
  symmetry. apply Qlt_bool_true.
  assert (E : inject_Z k - inject_Z k == 0) by ring.
  rewrite E. reflexivity.
Qed.

(** A number with at most two decimals. *)
Lemma round2_Qmake (k : Z) (q : Q) : q == k # 100 -> round2 q = k # 100.
Proof.
  intros H. unfold round2. f_equal.
  rewrite <- (round_half_even_Z k). apply round_half_even_comp.
  rewrite H. unfold Qeq, Qmult, inject_Z. simpl. lia.
Qed.

(** ** Dicts as association lists *)

Section DictFacts.
Context {V : Type}.
Implicit Types (d : list (string * V)) (k : string) (v : V).

Lemma dict_index_has d k :
  dict_has d k = true -> exists x, dict_index d k = Returned x.
Proof.
  induction d as [|[k' x] d IH]; simpl; [discriminate|].
  destruct (String.eqb k' k); simpl; [eauto | exact IH].
Qed.

Lemma dict_has_keys d k : dict_has d k = true <-> In k (dict_keys d).
Proof.
  induction d as [|[k' x] d IH]; simpl; [split; [discriminate | tauto]|].
  rewrite orb_true_iff, IH, String.eqb_eq. tauto.
Qed.

Lemma dict_set_keys d k v :
  dict_has d k = true -> dict_keys (dict_set d k v) = dict_keys d.
Proof.
  induction d as [|[k' x] d IH]; simpl; [discriminate|].
  destruct (String.eqb k' k); simpl; [reflexivity|].
  intros H. now rewrite IH.
Qed.

Lemma dict_set_new d k v :
  dict_has d k = false -> dict_set d k v = (d ++ [(k, v)])%list.
Proof.
  induction d as [|[k' x] d IH]; simpl; [reflexivity|].
  destruct (String.eqb k' k); simpl; [discriminate|].
  intros H. now rewrite IH.
Qed.

Lemma dict_set_has d k v k' :
  dict_has (dict_set d k v) k' = dict_has d k' || String.eqb k k'.
Proof.
  induction d as [|[k0 x] d IH]; simpl; [now rewrite orb_false_r|].
  destruct (String.eqb k0 k) eqn:E; simpl.
  - apply String.eqb_eq in E. subst k0.
    destruct (String.eqb k k'); simpl; [reflexivity | now rewrite orb_false_r].
  - rewrite IH. now rewrite orb_assoc.
Qed.

Lemma dict_set_well_formed d k v :
  well_formed_dict d -> well_formed_dict (dict_set d k v).
Proof.
  unfold well_formed_dict. intros H.
  destruct (dict_has d k) eqn:E.
  - rewrite dict_set_keys by exact E. exact H.
  - rewrite dict_set_new by exact E. unfold dict_keys. rewrite map_app. simpl.
    apply NoDup_app. split; [exact H|]. split.
    + intros x Hx Hk. apply list_elem_of_singleton in Hk. subst x.
      apply list_elem_of_In, dict_has_keys in Hx. congruence.
    + apply NoDup_singleton.
Qed.

Lemma dict_get_index d k (x dflt : V) :
  dict_index d k = Returned x -> dict_get d k dflt = x.
Proof.
  induction d as [|[k' y] d IH]; simpl; [discriminate|].
  destruct (String.eqb k' k); [congruence | exact IH].
Qed.
End DictFacts.

Lemma dict_set_sum (d : Weights) (k : string) (x y : Q) :
  dict_index d k = Returned x ->
  py_sum (dict_values (dict_set d k y)) == py_sum (dict_values d) - x + y.
Proof.
  induction d as [|[k' z] d IH]; simpl; [discriminate|].
  destruct (String.eqb k' k); simpl; intros H.
  - injection H as ->. rewrite !py_sum_cons. ring.
  - rewrite !py_sum_cons, (IH H). ring.
Qed.

Lemma max_from_In {A : Type} (key : A -> Q) (best : A) (l : list A) :
  max_from key best l = best \/ In (max_from key best l) l.
Proof.
  revert best. induction l as [|x l IH]; intros best; simpl; [now left|].
  destruct (IH (if Qgt_bool (key x) (key best) then x else best)) as [H|H].
  - rewrite H. destruct (Qgt_bool (key x) (key best)); [right; now left | now left].
  - right. now right.
Qed.

Lemma py_max_In {A : Type} (key : A -> Q) (l : list A) :
  l <> [] -> exists m, py_max key l = Returned m /\ In m l.
Proof.
  destruct l as [|x l]; [congruence|]. intros _. simpl.
  exists (max_from key x l). split; [reflexivity|].
  destruct (max_from_In key x l) as [-> | H]; [now left | now right].
Qed.

Lemma rescale_acc (total : Q) (weights acc : Weights) :
  acc <> [] ->
  fold_left (fun normalized kv =>
               dict_set normalized (fst kv) (round2 (snd kv / total * 100)))
            weights acc <> [].
Proof.
  revert acc. induction weights as [|kv w IH]; intros acc H; simpl; [exact H|].
  apply IH. destruct acc as [|[k x] acc]; [congruence|].
  simpl. destruct (String.eqb k (fst kv)); discriminate.
Qed.

Lemma rescale_nonempty (total : Q) (weights : Weights) :
  weights <> [] -> rescale total weights <> [].
Proof.
  destruct weights as [|kv w]; [congruence|]. intros _.
  unfold rescale. simpl. apply rescale_acc. discriminate.
Qed.

(** In exact arithmetic the normalised weights sum to exactly 100. *)
Lemma normalize_weights_exact (weights : Weights) :
  ~ py_sum (dict_values weights) == 0 ->
  exists normalized,
    normalize_weights weights = Returned normalized /\
    py_sum (dict_values normalized) == 100.
Proof.
  intros Htotal. unfold normalize_weights.
  destruct (Qeq_bool (py_sum (dict_values weights)) 0) eqn:E.
  { apply Qeq_bool_iff in E. contradiction. }
  set (normalized := rescale (py_sum (dict_values weights)) weights).
  destruct (Qeq_bool (100 - py_sum (dict_values normalized)) 0) eqn:Ed; simpl.
  - exists normalized. split; [reflexivity|].
    apply Qeq_bool_iff in Ed.
    assert (H : py_sum (dict_values normalized)
                == 100 - (100 - py_sum (dict_values normalized))) by ring.
    rewrite H, Ed. reflexivity.
  - assert (Hne : dict_keys normalized <> []).
    { assert (Hw : weights <> []) by (intros ->; apply Htotal; reflexivity).
      pose proof (rescale_nonempty (py_sum (dict_values weights)) weights Hw) as Hn.
      fold normalized in Hn. destruct normalized; [congruence | discriminate]. }
    destruct (py_max_In (fun k => dict_get normalized k 0) _ Hne) as (m & -> & Hm).
    apply dict_has_keys in Hm. destruct (dict_index_has _ _ Hm) as [x Hx].
    rewrite Hx. eexists. split; [reflexivity|].
    rewrite (dict_set_sum _ _ _ _ Hx). ring.
Qed.

Lemma two_decimals_round2 (q : Q) : two_decimals (round2 q).
Proof. exists (round_half_even (q * 100)). reflexivity. Qed.

Lemma two_decimals_plus (a b : Q) :
  two_decimals a -> two_decimals b -> two_decimals (a + b).
Proof.
  intros [k Hk] [j Hj]. exists (k + j)%Z. rewrite Hk, Hj.
  unfold Qeq, Qplus. simpl. lia.
Qed.

Lemma two_decimals_minus (a b : Q) :
  two_decimals a -> two_decimals b -> two_decimals (a - b).
Proof.
  intros [k Hk] [j Hj]. exists (k - j)%Z. rewrite Hk, Hj.
  unfold Qeq, Qminus, Qplus, Qopp. simpl. lia.
Qed.

Lemma two_decimals_sum (l : list Q) : Forall two_decimals l -> two_decimals (py_sum l).
Proof.
  induction 1 as [|x l Hx Hl IH].
  - exists 0%Z. reflexivity.
  - destruct (two_decimals_plus _ _ Hx IH) as [k Hk].
    exists k. rewrite py_sum_cons. exact Hk.
Qed.

Lemma dict_set_values_Forall (P : Q -> Prop) (d : Weights) (k : string) (v : Q) :
  Forall P (dict_values d) -> P v -> Forall P (dict_values (dict_set d k v)).
Proof.
  induction d as [|[k' x] d IH]; simpl; intros H Hv.
  - repeat constructor. exact Hv.
  - apply Forall_cons in H as [Hx Hd].
    destruct (String.eqb k' k); simpl; constructor; auto.
Qed.

Lemma rescale_invariant (P : Weights -> Prop) (total : Q) (weights : Weights) :
  P [] -> (forall d k v, P d -> P (dict_set d k (round2 v))) ->
  P (rescale total weights).
Proof.
  intros H0 Hstep. unfold rescale. generalize (@nil (string * Q)) H0.
  induction weights as [|kv w IH]; intros acc Hacc; simpl; [exact Hacc|].
  apply IH, Hstep, Hacc.
Qed.

Lemma rescale_well_formed (total : Q) (weights : Weights) :
  well_formed_dict (rescale total weights).
Proof.
  apply rescale_invariant.
  - apply NoDup_nil. trivial.
  - intros d k v. apply dict_set_well_formed.
Qed.

Lemma rescale_two_decimals (total : Q) (weights : Weights) :
  Forall two_decimals (dict_values (rescale total weights)).
Proof.
  apply (rescale_invariant (fun d => Forall two_decimals (dict_values d))).
  - constructor.
  - intros d k v H. apply dict_set_values_Forall; [exact H|].
    apply two_decimals_round2.
Qed.

Lemma dict_index_values (P : Q -> Prop) (d : Weights) (k : string) (x : Q) :
  Forall P (dict_values d) -> dict_index d k = Returned x -> P x.
Proof.
  induction d as [|[k' y] d IH]; simpl; [discriminate|].
  intros H. apply Forall_cons in H as [Hy Hd].
  destruct (String.eqb k' k); [congruence | auto].
Qed.

(** On a well-formed dict the rescaling loop is a map over the items. *)
Lemma rescale_fold_map (total : Q) (weights acc : Weights) :
  NoDup (dict_keys acc ++ dict_keys weights)%list ->
  fold_left (fun normalized kv =>
               dict_set normalized (fst kv) (round2 (snd kv / total * 100)))
            weights acc
  = (acc ++ map (fun kv => (fst kv, round2 (snd kv / total * 100))) weights)%list.
Proof.
  revert acc. induction weights as [|[k v] w IH]; intros acc H; simpl.
  - now rewrite app_nil_r.
  - assert (Hnew : dict_has acc k = false).
    { destruct (dict_has acc k) eqn:E; [|reflexivity]. exfalso.
      apply dict_has_keys in E. simpl in H.
      apply NoDup_app in H as (_ & H & _).
      apply (H k); [apply list_elem_of_In; exact E | left]. }
    rewrite dict_set_new by exact Hnew.
    rewrite IH.
    + rewrite <- app_assoc. reflexivity.
    + unfold dict_keys in *. rewrite map_app. simpl in *.
      rewrite <- app_assoc. exact H.
Qed.

Lemma rescale_map (total : Q) (weights : Weights) :
  well_formed_dict weights ->
  rescale total weights
  = map (fun kv => (fst kv, round2 (snd kv / total * 100))) weights.
Proof. intros H. unfold rescale. now rewrite rescale_fold_map. Qed.

Lemma py_sum_weights_eq (a b : Weights) :
  weights_eq a b -> py_sum (dict_values a) == py_sum (dict_values b).
Proof.
  induction 1 as [|x y a b [_ Hxy] Hab IH]; [reflexivity|].
  simpl. rewrite !py_sum_cons, Hxy, IH. reflexivity.
Qed.

Lemma rescale_fixed (total : Q) (weights : Weights) :
  total == 100 -> well_formed_dict weights ->
  Forall two_decimals (dict_values weights) ->
  weights_eq (rescale total weights) weights.
Proof.
  intros Ht Hwf Hdec. rewrite rescale_map by exact Hwf. clear Hwf.
  unfold weights_eq. induction weights as [|[k v] w IH]; simpl; [constructor|].
  simpl in Hdec. apply Forall_cons in Hdec as [[j Hj] Hdec].
  constructor; [|apply IH, Hdec]. simpl. split; [reflexivity|].
  rewrite (round2_Qmake j).
  - symmetry. exact Hj.
  - rewrite Ht, Hj. field.
Qed.

(** Shape of a normalised map in exact arithmetic. *)
Lemma normalize_weights_shape (weights : Weights) :
  ~ py_sum (dict_values weights) == 0 ->
  exists normalized,
    normalize_weights weights = Returned normalized /\
    py_sum (dict_values normalized) == 100 /\
    well_formed_dict normalized /\
    Forall two_decimals (dict_values normalized).
Proof.
  intros Htotal.
  destruct (normalize_weights_exact weights Htotal) as (n & Hn & Hsum).
  exists n. split; [exact Hn|]. split; [exact Hsum|].
  unfold normalize_weights in Hn.
  destruct (Qeq_bool (py_sum (dict_values weights)) 0) eqn:E.
  { apply Qeq_bool_iff in E. contradiction. }
  set (normalized := rescale (py_sum (dict_values weights)) weights) in *.
  pose proof (rescale_well_formed (py_sum (dict_values weights)) weights) as Hwf.
  pose proof (rescale_two_decimals (py_sum (dict_values weights)) weights) as Hdec.
  fold normalized in Hwf, Hdec.
  destruct (negb (Qeq_bool (100 - py_sum (dict_values normalized)) 0)).
  - destruct (py_max _ _) as [m|]; [|discriminate].
    destruct (dict_index normalized m) as [x|] eqn:Hx; [|discriminate].
    injection Hn as <-. split.
    + apply dict_set_well_formed, Hwf.
    + apply dict_set_values_Forall; [exact Hdec|].
      apply two_decimals_plus; [exact (dict_index_values _ _ _ _ Hdec Hx)|].
      apply two_decimals_minus; [exists 10000%Z; reflexivity|].
      apply two_decimals_sum, Hdec.
  - injection Hn as <-. split; assumption.
Qed.

(** In exact arithmetic normalising a normalised map changes nothing. *)
Lemma normalize_weights_fixed (normalized : Weights) :
  py_sum (dict_values normalized) == 100 ->
  well_formed_dict normalized ->
  Forall two_decimals (dict_values normalized) ->
  exists again,
    normalize_weights normalized = Returned again /\ weights_eq again normalized.
Proof.
  intros Hsum Hwf Hdec. unfold normalize_weights.
  destruct (Qeq_bool (py_sum (dict_values normalized)) 0) eqn:E.
  { apply Qeq_bool_iff in E. rewrite Hsum in E. discriminate. }
  pose proof (rescale_fixed _ _ Hsum Hwf Hdec) as Hfix.
  assert (Hd : Qeq_bool (100 - py_sum (dict_values
                 (rescale (py_sum (dict_values normalized)) normalized))) 0 = true).
  { apply Qeq_bool_iff. rewrite (py_sum_weights_eq _ _ Hfix), Hsum. reflexivity. }
  rewrite Hd. simpl. eexists. split; [reflexivity | exact Hfix].
Qed.

(** In exact arithmetic [normalize_weights] yields weights that sum to 100
    and that a second normalisation leaves as they are. *)
Lemma normalize_weights_exact_idempotent (weights : Weights) :
  ~ py_sum (dict_values weights) == 0 ->
  exists first second : Weights,
    normalize_weights weights = Returned first /\
    py_sum (dict_values first) == 100 /\
    normalize_weights first = Returned second /\
    weights_eq second first.
Proof.
  intros H.
  destruct (normalize_weights_shape weights H) as (n1 & Hn & Hsum & Hwf & Hdec).
  destruct (normalize_weights_fixed n1 Hsum Hwf Hdec) as (n2 & Ha & Heq).
  exists n1, n2. repeat split; assumption.
Qed.

(** ** Normalisation on doubles *)

(** C8. On doubles the claim fails for the weights 20, 20, 20, 5, 15, 10, 5
    (total 95). With the running-double [sum] the normalised values add up
    to 100 - 2^-46, not 100, and normalising the result again changes the
    value of "skills"; with compensated summation the first result adds up
    to 100 but a second normalisation still changes "skills". *)
Theorem normalize_weights_double_rounding :
  let w := F64.int_weights
             [("skills", 20); ("tools", 20); ("experience", 20); ("education", 5);
              ("projects", 15); ("certifications", 10); ("profile_quality", 5)]%Z in
  F64.sums_to_100 F64.sum w = false /\
  F64.idempotent_on F64.sum w = false /\
  F64.idempotent_on F64.sum_compensated w = false /\
  (exists once twice,
     F64.normalize_weights F64.sum w = Returned once /\
     F64.normalize_weights F64.sum once = Returned twice /\
     F64.to_Q (F64.sum (dict_values once)) == 100 - (1 # 2) ^ 46 /\
     F64.to_Q (dict_get once "skills" S754_nan) == (5927863009526409 # 2 ^ 48) /\
     F64.to_Q (dict_get twice "skills" S754_nan) == (5927863009526411 # 2 ^ 48)).
Proof.
  intros w.
  split; [vm_compute; reflexivity|].
  split; [vm_compute; reflexivity|].
  split; [vm_compute; reflexivity|].
  destruct (F64.normalize_weights F64.sum w) as [once|] eqn:E1;
    [|vm_compute in E1; discriminate].
  destruct (F64.normalize_weights F64.sum once) as [twice|] eqn:E2.
  2:{ vm_compute in E1. injection E1 as <-. vm_compute in E2. discriminate. }
  exists once, twice.
  vm_compute in E1. injection E1 as <-.
  vm_compute in E2. injection E2 as <-.
  repeat split; vm_compute; reflexivity.
Qed.

(** ** Zero-sum weights *)

Lemma Qgt_bool_comp (x x' y y' : Q) :
  x == x' -> y == y' -> Qgt_bool x y = Qgt_bool x' y'.
Proof. intros Hx Hy. apply (Qlt_bool_comp y y' x x' Hy Hx). Qed.

Lemma normalize_weights_zero (weights : Weights) :
  py_sum (dict_values weights) == 0 ->
  normalize_weights weights = Returned DEFAULT_RUBRICS_WEIGHTS.
Proof.
  intros H. unfold normalize_weights.
  apply Qeq_bool_iff in H. rewrite H. reflexivity.
Qed.

Lemma zero_sum_far_from_100 (total : Q) :
  total == 0 -> Qgt_bool (Qabs (total - 100)) (1 # 10) = true.
Proof.
  intros H.
  rewrite (Qgt_bool_comp _ (Qabs (0 - 100)) _ (1 # 10)); [reflexivity | | reflexivity].
  apply Qabs_wd. rewrite H. reflexivity.
Qed.

(** C9, as stated, fails: all-zero weights are not rejected, the
    normaliser hands back the default weight set. *)
Lemma zero_sum_replaced_by_defaults :
  let zeros : Weights :=
    [("skills", 0); ("tools", 0); ("experience", 0); ("education", 0);
     ("projects", 0); ("certifications", 0); ("profile_quality", 0)] in
  normalize_weights zeros = Returned DEFAULT_RUBRICS_WEIGHTS /\
  generated_weights zeros = Returned DEFAULT_RUBRICS_WEIGHTS /\
  ~ zero_sum_is_rejected.
Proof.
  intros zeros.
  assert (H : normalize_weights zeros = Returned DEFAULT_RUBRICS_WEIGHTS)
    by reflexivity.
  split; [exact H|]. split; [reflexivity|].
  intros Hrej. destruct (Hrej zeros) as [e He]; [reflexivity|].
  rewrite H in He. discriminate.
Qed.

(** C9, amended. Weights that sum to 0 never raise an error:
    [normalize_weights] returns the default weight set, the check at the end
    of rubric generation therefore replaces them by the defaults, and
    [validate_rubrics], given all seven categories, returns the verdict
    false with the message that the weights sum to that total. *)
Theorem zero_sum_weights_defaulted (weights : Weights) :
  py_sum (dict_values weights) == 0 ->
  normalize_weights weights = Returned DEFAULT_RUBRICS_WEIGHTS /\
  generated_weights weights = Returned DEFAULT_RUBRICS_WEIGHTS /\
  ((forall key, In key required_keys -> dict_has weights key = true) ->
   validate_rubrics (Some weights)
   = (false, WeightsSumTo (py_sum (dict_values weights)))).
Proof.
  intros H.
  pose proof (normalize_weights_zero weights H) as Hn.
  split; [exact Hn|]. split.
  - unfold generated_weights. rewrite (zero_sum_far_from_100 _ H). exact Hn.
  - intros Hkeys. unfold validate_rubrics.
    destruct (find (fun key => negb (dict_has weights key)) required_keys)
      as [key|] eqn:Ef.
    + apply find_some in Ef as [Hin Hk].
      rewrite (Hkeys key Hin) in Hk. discriminate.
    + rewrite (zero_sum_far_from_100 _ H). reflexivity.
Qed.

Lemma zero_sum_weights_defaulted_witness :
  let zeros : Weights :=
    [("skills", 0); ("tools", 0); ("experience", 0); ("education", 0);
     ("projects", 0); ("certifications", 0); ("profile_quality", 0)] in
  normalize_weights zeros = Returned DEFAULT_RUBRICS_WEIGHTS /\
  validate_rubrics (Some zeros) = (false, WeightsSumTo (py_sum (dict_values zeros))).
Proof.
  intros zeros.
  destruct (zero_sum_weights_defaulted zeros) as (Hn & _ & Hv); [reflexivity|].
  split; [exact Hn|]. apply Hv.
  intros key Hin. unfold required_keys, category_names in Hin. simpl in Hin.
  repeat (destruct Hin as [<- | Hin]; [reflexivity|]). destruct Hin.
Defined.

(** ** The call budget *)

Lemma grants_in_window_snoc (t : list Event) (e : Event) :
  grants_in_window (t ++ [e]) = window_step (grants_in_window t) e.
Proof. unfold grants_in_window. now rewrite fold_left_app. Qed.

Lemma new_events_app (w w' : World) (t : list Event) :
  trace w' = trace w ++ t -> new_events w w' = t.
Proof.
  intros H. unfold new_events. rewrite H.
  rewrite skipn_app, skipn_all, Nat.sub_diag. reflexivity.
Qed.

(** Each step of the tracker only appends to the trace. *)
Lemma reset_minute_counter_trace (w : World) :
  exists t, trace (_reset_minute_counter w) = trace w ++ t /\ grants t = 0%nat
            /\ calls t = 0%nat.
Proof.
  unfold _reset_minute_counter.
  destruct (Qge_bool _ _); simpl.
  - eexists. split; [reflexivity|]. split; reflexivity.
  - exists []. rewrite app_nil_r. repeat split.
Qed.

Lemma minute_limit_check_trace (w : World) :
  exists t, trace (minute_limit_check w) = trace w ++ t /\ grants t = 0%nat
            /\ calls t = 0%nat.
Proof.
  unfold minute_limit_check.
  destruct (_ <=? _)%Z; [destruct (Qgt_bool _ _)|]; simpl.
  - rewrite <- app_assoc. eexists. split; [reflexivity|]. split; reflexivity.
  - exists []. rewrite app_nil_r. repeat split.
  - exists []. rewrite app_nil_r. repeat split.
Qed.

Lemma min_delay_check_trace (w : World) :
  exists t, trace (min_delay_check w) = trace w ++ t /\ grants t = 0%nat
            /\ calls t = 0%nat.
Proof.
  unfold min_delay_check.
  destruct (Qlt_bool _ _); simpl.
  - eexists. split; [reflexivity|]. split; reflexivity.
  - exists []. rewrite app_nil_r. repeat split.
Qed.

Lemma grants_app (a b : list Event) : grants (a ++ b) = (grants a + grants b)%nat.
Proof. unfold grants. now rewrite List.filter_app, length_app. Qed.

Lemma calls_app (a b : list Event) : calls (a ++ b) = (calls a + calls b)%nat.
Proof. unfold calls. now rewrite List.filter_app, length_app. Qed.

(** An acquisition adds exactly one grant and no external call. *)
Lemma wait_for_rate_limit_trace (w : World) :
  exists t, trace (_wait_for_rate_limit w) = trace w ++ t /\ grants t = 1%nat
            /\ calls t = 0%nat.
Proof.
  unfold _wait_for_rate_limit.
  destruct (reset_minute_counter_trace w) as (t1 & E1 & G1 & C1).
  destruct (minute_limit_check_trace (_reset_minute_counter w)) as (t2 & E2 & G2 & C2).
  destruct (min_delay_check_trace (minute_limit_check (_reset_minute_counter w)))
    as (t3 & E3 & G3 & C3).
  set (w3 := min_delay_check (minute_limit_check (_reset_minute_counter w))) in *.
  exists (t1 ++ t2 ++ t3 ++ [EvGrant (clock w3)]).
  split.
  - simpl. rewrite E3, E2, E1. now rewrite <- !app_assoc.
  - rewrite !grants_app, !calls_app, G1, G2, G3, C1, C2, C3. split; reflexivity.
Qed.

Lemma min_delay_check_count (w : World) :
  api_call_count (min_delay_check w) = api_call_count w /\
  minute_start_time (min_delay_check w) = minute_start_time w /\
  grants_in_window (trace (min_delay_check w)) = grants_in_window (trace w) /\
  clock w <= clock (min_delay_check w).
Proof.
  unfold min_delay_check.
  destruct (Qlt_bool _ _) eqn:E; simpl.
  - rewrite grants_in_window_snoc. repeat split.
    qbool. unfold MIN_DELAY_BETWEEN_CALLS in *.
    set (c := clock w) in *. set (l := last_api_call_time w) in *.
    assert (H : 0 <= 4 - (c - l)).
    { apply Qlt_le_weak. unfold Qminus in *. rewrite <- Qlt_minus_iff. exact E. }
    rewrite <- (Qplus_0_r c) at 1. apply Qplus_le_r. exact H.
  - repeat split. apply Qle_refl.
Qed.

Lemma Qminus_lt_60 (c s : Q) : c - s < 60 -> 0 < 60 - (c - s).
Proof.
  intros H. unfold Qminus in *. rewrite <- Qlt_minus_iff. exact H.
Qed.

(** What one acquisition does to the counter and the window, case by case. *)
Lemma wait_for_rate_limit_cases (w : World) :
  let w' := _wait_for_rate_limit w in
  (60 <= clock w - minute_start_time w ->
     api_call_count (_reset_minute_counter w) = 0%Z /\
     minute_start_time (_reset_minute_counter w) = clock w /\
     api_call_count w' = 1%Z /\ minute_start_time w' = clock w) /\
  (clock w - minute_start_time w < 60 ->
   (CALLS_PER_MINUTE_LIMIT <= api_call_count w)%Z ->
     In (EvSleep (60 - (clock w - minute_start_time w) + 2)) (new_events w w') /\
     minute_start_time w + 60 < minute_start_time w' /\
     minute_start_time w' <= last_api_call_time w' /\
     api_call_count w' = 1%Z) /\
  (clock w - minute_start_time w < 60 ->
   (api_call_count w < CALLS_PER_MINUTE_LIMIT)%Z ->
     api_call_count w' = (api_call_count w + 1)%Z /\
     minute_start_time w' = minute_start_time w).
Proof.
  intros w'. subst w'. unfold _wait_for_rate_limit.
  split; [|split].
  - intros H60. apply Qge_bool_true in H60.
    unfold _reset_minute_counter. rewrite H60. simpl.
    split; [reflexivity|]. split; [reflexivity|].
    destruct (min_delay_check_count (minute_limit_check (restart_window w)))
      as (Hc & Hs & _).
    rewrite Hc, Hs. unfold minute_limit_check. simpl. split; reflexivity.
  - intros H60 Hlim.
    pose proof (Qminus_lt_60 _ _ H60) as Hrem.
    apply Qge_bool_false in H60.
    unfold _reset_minute_counter. rewrite H60.
    set (w2 := minute_limit_check w).
    assert (E2 : w2 = restart_window
                        (time_sleep (60 - (clock w - minute_start_time w) + 2) w)).
    { unfold w2, minute_limit_check.
      apply Z.leb_le in Hlim. rewrite Hlim.
      apply Qgt_bool_true in Hrem. rewrite Hrem. reflexivity. }
    destruct (min_delay_check_count w2) as (Hc & Hs & _ & Hclk).
    destruct (min_delay_check_trace w2) as (t3 & Et3 & _).
    assert (Hev : new_events w (record_call (min_delay_check w2))
                  = [EvSleep (60 - (clock w - minute_start_time w) + 2);
                     EvWindowStart (clock w2)]
                    ++ t3 ++ [EvGrant (clock (min_delay_check w2))]).
    { apply new_events_app. simpl. rewrite Et3, E2. simpl.
      rewrite <- !app_assoc. reflexivity. }
    rewrite Hev. cbn [record_call api_call_count minute_start_time
                      last_api_call_time].
    rewrite Hc, Hs.
    assert (Hstart : minute_start_time w2
                     = clock w + (60 - (clock w - minute_start_time w) + 2))
      by (rewrite E2; reflexivity).
    assert (Hclock : clock w2 = minute_start_time w2) by (rewrite E2; reflexivity).
    assert (Hcount : api_call_count w2 = 0%Z) by (rewrite E2; reflexivity).
    split; [left; reflexivity|]. split; [|split].
    + rewrite Hstart.
      set (c := clock w). set (s := minute_start_time w).
      assert (E : c + (60 - (c - s) + 2) == s + 60 + 2) by ring.
      rewrite E. rewrite <- (Qplus_0_r (s + 60)) at 1.
      apply Qplus_lt_r. reflexivity.
    + rewrite <- Hclock. exact Hclk.
    + rewrite Hcount. reflexivity.
  - intros H60 Hlim.
    apply Qge_bool_false in H60.
    unfold _reset_minute_counter. rewrite H60.
    assert (E2 : minute_limit_check w = w).
    { unfold minute_limit_check.
      apply Z.leb_gt in Hlim. rewrite Hlim. reflexivity. }
    destruct (min_delay_check_count (minute_limit_check w)) as (Hc & Hs & _).
    simpl. rewrite Hc, Hs, E2. split; reflexivity.
Qed.

Lemma budget_ok_restart (w : World) : budget_ok (restart_window w).
Proof.
  unfold budget_ok, restart_window, CALLS_PER_MINUTE_LIMIT. simpl.
  rewrite grants_in_window_snoc. simpl. split; [reflexivity | lia].
Qed.

Lemma budget_ok_sleep (d : Q) (w : World) : budget_ok w -> budget_ok (time_sleep d w).
Proof.
  unfold budget_ok, time_sleep. simpl. rewrite grants_in_window_snoc. simpl. tauto.
Qed.

Lemma budget_ok_api_call (env : Env) (k : nat) (w : World) :
  budget_ok w -> budget_ok (api_call env k w).
Proof.
  unfold budget_ok, api_call. simpl. rewrite grants_in_window_snoc. simpl. tauto.
Qed.

(** After the two checks of an acquisition the counter is strictly below the
    limit, so the grant that follows stays within it. *)
Lemma checks_leave_room (w : World) :
  budget_ok w ->
  let w2 := minute_limit_check (_reset_minute_counter w) in
  api_call_count w2 = grants_in_window (trace w2) /\
  (api_call_count w2 < CALLS_PER_MINUTE_LIMIT)%Z.
Proof.
  intros [Hc Hle]. unfold _reset_minute_counter.
  destruct (Qge_bool (clock w - minute_start_time w) 60) eqn:E60.
  - unfold minute_limit_check. simpl.
    rewrite grants_in_window_snoc. simpl. split; [reflexivity|].
    unfold CALLS_PER_MINUTE_LIMIT. lia.
  - unfold minute_limit_check.
    destruct (CALLS_PER_MINUTE_LIMIT <=? api_call_count w)%Z eqn:El.
    + apply Qge_bool_false, Qminus_lt_60, Qgt_bool_true in E60.
      rewrite E60. simpl. rewrite !grants_in_window_snoc. simpl.
      split; [reflexivity|]. unfold CALLS_PER_MINUTE_LIMIT. lia.
    + cbv zeta. apply Z.leb_gt in El. split; assumption.
Qed.

Lemma budget_ok_wait (w : World) : budget_ok w -> budget_ok (_wait_for_rate_limit w).
Proof.
  intros H. destruct (checks_leave_room w H) as [Hc Hlt].
  unfold _wait_for_rate_limit.
  set (w2 := minute_limit_check (_reset_minute_counter w)) in *.
  destruct (min_delay_check_count w2) as (Hc3 & _ & Hg3 & _).
  unfold budget_ok. simpl. rewrite grants_in_window_snoc. simpl.
  rewrite Hc3, Hg3, <- Hc. split; [reflexivity | lia].
Qed.

(** The retry loop never grants, makes at most one external call per attempt
    left, and keeps the counter within the limit. *)
Lemma retry_loop_trace (env : Env) (prompt : string) (max_retries : nat)
    (attempts : list nat) (w : World) :
  let w' := fst (retry_loop env prompt max_retries attempts w) in
  exists t, trace w' = trace w ++ t /\ grants t = 0%nat /\
            (calls t <= length attempts)%nat /\
            (budget_ok w -> budget_ok w').
Proof.
  revert w. induction attempts as [|attempt rest IH]; intros w; simpl.
  - exists []. rewrite app_nil_r.
    split; [reflexivity|]. split; [reflexivity|]. split; [cbv; lia | auto].
  - assert (Hstop : exists t,
              trace (api_call env attempt w) = trace w ++ t /\ grants t = 0%nat /\
              (calls t <= S (length rest))%nat /\
              (budget_ok w -> budget_ok (api_call env attempt w))).
    { exists [EvCall attempt].
      split; [reflexivity|]. split; [reflexivity|]. split; [cbv; lia|].
      apply budget_ok_api_call. }
    destruct (api env prompt attempt) as [response | e]; [exact Hstop|].
    destruct (classify e); [| |exact Hstop].
    + destruct (attempt <? max_retries - 1)%nat; [|exact Hstop].
      destruct (IH (restart_window
                      (time_sleep (backoff_delay env attempt) (api_call env attempt w))))
        as (t & Et & Gt & Ct & Hok).
      exists ([EvCall attempt; EvSleep (backoff_delay env attempt);
               EvWindowStart (clock w + latency env attempt
                              + backoff_delay env attempt)] ++ t).
      split; [rewrite Et; simpl; rewrite <- !app_assoc; reflexivity|].
      split; [rewrite grants_app, Gt; reflexivity|].
      split; [rewrite calls_app; change (calls _) with 1%nat at 1; lia|].
      intros _. apply Hok, budget_ok_restart.
    + destruct (attempt <? max_retries - 1)%nat; [|exact Hstop].
      destruct (IH (time_sleep (10 * inject_Z (Z.of_nat attempt + 1))
                      (api_call env attempt w)))
        as (t & Et & Gt & Ct & Hok).
      exists ([EvCall attempt; EvSleep (10 * inject_Z (Z.of_nat attempt + 1))] ++ t).
      split; [rewrite Et; simpl; rewrite <- !app_assoc; reflexivity|].
      split; [rewrite grants_app, Gt; reflexivity|].
      split; [rewrite calls_app; change (calls _) with 1%nat at 1; lia|].
      intros H. apply Hok, budget_ok_sleep, budget_ok_api_call, H.
Qed.

Lemma budget_ok_run_op (op : TrackerOp) (w : World) :
  budget_ok w -> budget_ok (run_op op w).
Proof.
  intros H. destruct op as [|env prompt max_retries| |d]; simpl.
  - apply budget_ok_wait, H.
  - unfold generate_content.
    destruct (retry_loop_trace env prompt max_retries (seq 0 max_retries)
                (_wait_for_rate_limit w)) as (_ & _ & _ & _ & Hok).
    apply Hok, budget_ok_wait, H.
  - unfold budget_ok, reset_rate_limiter, CALLS_PER_MINUTE_LIMIT. simpl.
    rewrite grants_in_window_snoc. simpl. split; [reflexivity | lia].
  - exact H.
Qed.

Lemma budget_ok_run_ops (ops : list TrackerOp) (w : World) :
  budget_ok w -> budget_ok (run_ops ops w).
Proof.
  unfold run_ops. revert w. induction ops as [|op ops IH]; intros w H; simpl.
  - exact H.
  - apply IH, budget_ok_run_op, H.
Qed.

Lemma budget_ok_initial (now : Q) : budget_ok (initial_world now).
Proof. unfold budget_ok, CALLS_PER_MINUTE_LIMIT. simpl. split; [reflexivity | lia]. Qed.

(** C2. On the simulated clock the counter of calls issued in the current
    window never exceeds the per-minute limit. From a state where the counter
    equals the number of grants traced since the window started and is
    within the limit, an acquisition leaves it so. If 60 seconds or more have
    passed since the window started, the counter is first reset to zero and
    the window restarts at the current time; if the limit is reached inside
    the window, the caller sleeps for the rest of the window plus two
    seconds, so that the next window starts, and the grant is recorded, after
    the old window has ended; otherwise the grant is counted in the current
    window. Hence in every state reached from the initial one by
    acquisitions, calls of [generate_content], manual resets and idle time,
    the grants traced since the window started number at most the limit. *)
Theorem call_budget_never_exceeded (w : World) :
  budget_ok w ->
  let w' := _wait_for_rate_limit w in
  ((api_call_count w' <= CALLS_PER_MINUTE_LIMIT)%Z /\
   api_call_count w' = grants_in_window (trace w')) /\
  (60 <= clock w - minute_start_time w ->
     api_call_count (_reset_minute_counter w) = 0%Z /\
     minute_start_time (_reset_minute_counter w) = clock w /\
     api_call_count w' = 1%Z /\ minute_start_time w' = clock w) /\
  (clock w - minute_start_time w < 60 ->
   (CALLS_PER_MINUTE_LIMIT <= api_call_count w)%Z ->
     In (EvSleep (60 - (clock w - minute_start_time w) + 2)) (new_events w w') /\
     minute_start_time w + 60 < minute_start_time w' /\
     minute_start_time w' <= last_api_call_time w' /\
     api_call_count w' = 1%Z) /\
  (clock w - minute_start_time w < 60 ->
   (api_call_count w < CALLS_PER_MINUTE_LIMIT)%Z ->
     api_call_count w' = (api_call_count w + 1)%Z /\
     minute_start_time w' = minute_start_time w) /\
  (forall (now : Q) (ops : list TrackerOp),
     (grants_in_window (trace (run_ops ops (initial_world now)))
      <= CALLS_PER_MINUTE_LIMIT)%Z /\
     api_call_count (run_ops ops (initial_world now))
     = grants_in_window (trace (run_ops ops (initial_world now)))).
Proof.
  intros Hok w'.
  split.
  { destruct (budget_ok_wait w Hok) as [Hc Hle]. split; assumption. }
  destruct (wait_for_rate_limit_cases w) as (Hreset & Hblock & Hcount).
  split; [exact Hreset|]. split; [exact Hblock|]. split; [exact Hcount|].
  intros now ops.
  destruct (budget_ok_run_ops ops (initial_world now) (budget_ok_initial now))
    as [Hc Hle].
  split; [rewrite <- Hc; exact Hle | exact Hc].
Qed.

Lemma call_budget_never_exceeded_witness :
  let w := run_ops [OpAcquire; OpIdle 1] (initial_world 1000) in
  api_call_count w = 1%Z /\
  api_call_count (_wait_for_rate_limit w) = 2%Z /\
  (api_call_count (_wait_for_rate_limit w) <= CALLS_PER_MINUTE_LIMIT)%Z.
Proof.
  intros w.
  assert (Hok : budget_ok w).
  { unfold budget_ok, CALLS_PER_MINUTE_LIMIT. vm_compute. split; [reflexivity|].
    discriminate. }
  destruct (call_budget_never_exceeded w Hok) as ((Hle & _) & _ & _ & Hcount & _).
  split; [reflexivity|]. split; [|exact Hle].
  destruct Hcount as [Hc _]; [reflexivity | reflexivity |].
  rewrite Hc. reflexivity.
Defined.

(** ** The retry loop *)

Lemma generate_content_trace (env : Env) (prompt : string) (max_retries : nat)
    (w : World) :
  let w1 := _wait_for_rate_limit w in
  let w' := fst (generate_content env prompt max_retries w) in
  new_events w w' = new_events w w1 ++ new_events w1 w' /\
  grants (new_events w w1) = 1%nat /\ calls (new_events w w1) = 0%nat /\
  grants (new_events w1 w') = 0%nat /\
  (calls (new_events w1 w') <= max_retries)%nat.
Proof.
  intros w1 w'. subst w' w1. unfold generate_content.
  destruct (wait_for_rate_limit_trace w) as (t1 & E1 & G1 & C1).
  destruct (retry_loop_trace env prompt max_retries (seq 0 max_retries)
              (_wait_for_rate_limit w)) as (t2 & E2 & G2 & C2 & _).
  rewrite length_seq in C2.
  rewrite (new_events_app _ _ _ E1), (new_events_app _ _ _ E2).
  rewrite (new_events_app w _ (t1 ++ t2)).
  - repeat split; assumption.
  - rewrite E2, E1. now rewrite app_assoc.
Qed.

(** C1, as stated, fails: when the first attempt is answered 429 and the
    second succeeds, the invocation makes two external calls after a single
    grant; the second call follows the back-off sleep, not an acquisition. *)
Lemma retry_without_acquire :
  let w := initial_world 1000 in
  let r := generate_content env_429_then_ok "prompt" MAX_RETRIES w in
  snd r = inr (Some "{}") /\
  map is_grant (new_events w (fst r)) = [true; false; false; false; false] /\
  map is_call (new_events w (fst r)) = [false; true; false; false; true] /\
  budget_before_every_call false (new_events w (fst r)) = false /\
  ~ acquire_before_every_attempt.
Proof.
  intros w r.
  assert (H : budget_before_every_call false (new_events w (fst r)) = false)
    by (vm_compute; reflexivity).
  split; [vm_compute; reflexivity|].
  split; [vm_compute; reflexivity|].
  split; [vm_compute; reflexivity|].
  split; [exact H|].
  intros Hall.
  specialize (Hall env_429_then_ok "prompt" MAX_RETRIES w).
  fold r in Hall. rewrite H in Hall. discriminate.
Qed.

(** C1, amended. Every invocation of [generate_content] performs the
    acquire step exactly once, before the first attempt: its events are those
    of one acquisition, holding one grant and no external call, followed by
    those of the attempts, holding no grant and at most [max_retries]
    external calls. Retries are preceded by their back-off sleep only. *)
Theorem acquire_once_per_invocation (env : Env) (prompt : string)
    (max_retries : nat) (w : World) :
  let w1 := _wait_for_rate_limit w in
  let w' := fst (generate_content env prompt max_retries w) in
  new_events w w' = new_events w w1 ++ new_events w1 w' /\
  grants (new_events w w1) = 1%nat /\ calls (new_events w w1) = 0%nat /\
  grants (new_events w1 w') = 0%nat /\
  (calls (new_events w1 w') <= max_retries)%nat /\
  grants (new_events w w') = 1%nat.
Proof.
  intros w1 w'.
  destruct (generate_content_trace env prompt max_retries w)
    as (E & G1 & C1 & G2 & C2).
  fold w1 in E, G1, C1, G2, C2. fold w' in E, G2, C2.
  repeat (split; [assumption|]).
  rewrite E, grants_app, G1, G2. reflexivity.
Qed.

Lemma uniform_bounds (u : Q) : 0 <= u -> u <= 1 -> 2 <= uniform 2 8 u /\ uniform 2 8 u <= 8.
Proof.
  intros H0 H1. unfold uniform.
  assert (E : 8 - 2 == 6) by reflexivity.
  split.
  - rewrite <- (Qplus_0_r 2) at 1. apply Qplus_le_r.
    apply Qmult_le_0_compat; [discriminate | exact H0].
  - assert (E8 : 8 == 2 + (8 - 2) * 1) by reflexivity.
    rewrite E8 at 2. apply Qplus_le_r.
    apply Qmult_le_l; [reflexivity | exact H1].
Qed.





(** ** Searching and slicing a text *)















(** * Further properties *)

(** ** Tiers *)

Lemma Qge_bool_mono (x y t : Q) :
  x <= y -> Qge_bool x t = true -> Qge_bool y t = true.
Proof.
  intros Hxy H. apply Qge_bool_true in H. apply Qge_bool_true.
  eapply Qle_trans; eassumption.
Qed.

Lemma Qlt_bool_anti (x y t : Q) :
  x <= y -> Qlt_bool y t = true -> Qlt_bool x t = true.
Proof.
  intros Hxy H. apply Qlt_bool_true in H. apply Qlt_bool_true.
  eapply Qle_lt_trans; eassumption.
Qed.

(** Close a goal whose context holds a comparison of [x] that is true
    and the same comparison of a larger [y] that is false. *)
Ltac mono_absurd Hxy :=
  match goal with
  | H1 : Qge_bool ?x ?t = true, H2 : Qge_bool ?y ?t = false |- _ =>
      rewrite (Qge_bool_mono x y t Hxy H1) in H2; discriminate
  | H1 : Qlt_bool ?y ?t = true, H2 : Qlt_bool ?x ?t = false |- _ =>
      rewrite (Qlt_bool_anti x y t Hxy H1) in H2; discriminate
  end.

Lemma base_tier_mono (o1 o2 : Q) :
  o1 <= o2 -> (tier_rank (base_tier o1) <= tier_rank (base_tier o2))%nat.
Proof.
  intros H. unfold base_tier.
  destruct (Qge_bool o1 80) eqn:A1, (Qge_bool o1 60) eqn:A2,
    (Qge_bool o1 40) eqn:A3, (Qge_bool o1 20) eqn:A4,
    (Qge_bool o2 80) eqn:B1, (Qge_bool o2 60) eqn:B2,
    (Qge_bool o2 40) eqn:B3, (Qge_bool o2 20) eqn:B4;
    simpl; try lia; try mono_absurd H; qabsurd.
Qed.

Lemma avg_below_30_50 (a : Q) : Qlt_bool a 30 = true -> Qlt_bool a 50 = true.
Proof.
  intros H. apply Qlt_bool_true in H. apply Qlt_bool_true.
  eapply Qlt_trans; [exact H | reflexivity].
Qed.

Lemma safeguard_tier_mono (o1 o2 : Q) (s1 s2 : ScoreMap) :
  o1 <= o2 -> critical_avg s1 <= critical_avg s2 ->
  (tier_rank (safeguard_tier o1 s1) <= tier_rank (safeguard_tier o2 s2))%nat.
Proof.
  intros Ho Ha. pose proof (base_tier_mono o1 o2 Ho) as Hb.
  unfold safeguard_tier.
  destruct (Qlt_bool (critical_avg s1) 50) eqn:A50,
    (Qlt_bool (critical_avg s1) 30) eqn:A30,
    (Qlt_bool (critical_avg s2) 50) eqn:B50,
    (Qlt_bool (critical_avg s2) 30) eqn:B30;
    try (rewrite (avg_below_30_50 _ A30) in A50; discriminate);
    try (rewrite (avg_below_30_50 _ B30) in B50; discriminate);
    try mono_absurd Ha;
    destruct (base_tier o1), (base_tier o2); simpl in *; lia.
Qed.

Lemma base_below_60 (o : Q) :
  Qge_bool o 60 = false -> (tier_rank (base_tier o) <= 2)%nat.
Proof.
  intros H. unfold base_tier.
  destruct (Qge_bool o 80) eqn:E; [qabsurd|]. rewrite H.
  destruct (Qge_bool o 40), (Qge_bool o 20); simpl; lia.
Qed.

(** X1. For a fixed rationale, the tier never goes down when the overall
    score and the average of the critical categories go up. *)
Theorem tier_monotone (o1 o2 : Q) (s1 s2 : ScoreMap) (ai_reasoning : option string) :
  o1 <= o2 -> critical_avg s1 <= critical_avg s2 ->
  (tier_rank (determine_candidate_tier o1 s1 ai_reasoning)
   <= tier_rank (determine_candidate_tier o2 s2 ai_reasoning))%nat.
Proof.
  intros Ho Ha.
  pose proof (safeguard_tier_mono o1 o2 s1 s2 Ho Ha) as Hg.
  pose proof (safeguard_le_base o1 s1) as Hle1.
  unfold determine_candidate_tier.
  destruct ai_reasoning as [text|]; [|exact Hg].
  destruct (truthy text); [|exact Hg].
  destruct (has_positive_phrase (lower text)).
  - destruct (Qge_bool o1 70) eqn:A70, (Qge_bool o1 60) eqn:A60,
      (Qge_bool o2 70) eqn:B70, (Qge_bool o2 60) eqn:B60;
      simpl; try lia; try mono_absurd Ho; try exact Hg;
      try (destruct (safeguard_tier o1 s1); simpl; lia).
    pose proof (base_below_60 o1 A60). lia.
  - destruct (has_negative_phrase (lower text)); [|exact Hg].
    destruct (Qlt_bool o1 50) eqn:A50, (Qlt_bool o2 50) eqn:B50;
      simpl; try lia. mono_absurd Ho.
Qed.

Lemma tier_monotone_witness :
  (tier_rank (determine_candidate_tier 45 (pipeline_scores 20 20 20 0 0 0 0) None)
   <= tier_rank (determine_candidate_tier 85 (pipeline_scores 60 60 60 0 0 0 0) None))%nat.
Proof.
  apply tier_monotone.
  - discriminate.
  - rewrite !critical_avg_pipeline. discriminate.
Defined.



(** ** Phrases in a text with numbers filled in *)

Section Separator.
(** [p] is a phrase without any character of [set]; [n] is a non-empty
    piece, such as a formatted number, made of characters of [set] only. *)
Variables set p : string.
Hypothesis p_avoids : avoids_set set p = true.

Lemma startswith_before_piece (x n b : string) (c : ascii) :
  mem_char c set = true ->
  startswith p (x +:+ String c n +:+ b) = startswith p x.
Proof.
  intros Hc. revert p_avoids. generalize p as q. clear p.
  induction x as [|z x IH]; intros q Hq.
  - destruct q as [|y q]; [reflexivity|]. simpl in *.
    apply andb_true_iff in Hq as [Hy _].
    destruct (Ascii.eqb_spec y c) as [->|]; [|reflexivity].
    rewrite Hc in Hy. discriminate.
  - destruct q as [|y q]; [reflexivity|]. simpl in *.
    apply andb_true_iff in Hq as [_ Hq]. now rewrite IH.
Qed.

Lemma str_in_skip_piece (n b : string) :
  p <> "" -> all_in set n = true -> str_in p (n +:+ b) = str_in p b.
Proof.
  intros Hp Hn. induction n as [|c n IH]; [reflexivity|].
  simpl in Hn. apply andb_true_iff in Hn as [Hc Hn].
  cbn [String.append str_in].
  replace (startswith p (String c (n +:+ b))) with false; [apply IH, Hn|].
  destruct p as [|y q]; [congruence|]. simpl in *.
  apply andb_true_iff in p_avoids as [Hy _].
  destruct (Ascii.eqb_spec y c) as [->|]; [|reflexivity].
  rewrite Hc in Hy. discriminate.
Qed.

(** An occurrence of the phrase lies on one side of the piece. *)
Lemma str_in_around_piece (x n b : string) :
  p <> "" -> n <> "" -> all_in set n = true ->
  str_in p (x +:+ n +:+ b) = str_in p x || str_in p b.
Proof.
  intros Hp Hne Hn.
  destruct n as [|c n]; [congruence|].
  assert (Hc : mem_char c set = true).
  { simpl in Hn. apply andb_true_iff in Hn. tauto. }
  induction x as [|z x IH].
  - replace (str_in p "") with false.
    + change ("" +:+ String c n +:+ b) with (String c n +:+ b).
      rewrite orb_false_l. apply str_in_skip_piece; assumption.
    + destruct p; [congruence | reflexivity].
  - change (String z x +:+ String c n +:+ b)
      with (String z (x +:+ String c n +:+ b)).
    cbn [str_in].
    change (String z (x +:+ String c n +:+ b))
      with (String z x +:+ String c n +:+ b).
    rewrite (startswith_before_piece (String z x) n b c Hc), IH.
    destruct (startswith p (String z x)); reflexivity.
Qed.
End Separator.

Lemma lower_number_chars (s : string) :
  all_in number_chars s = true -> lower s = s.
Proof.
  induction s as [|c s IH]; [reflexivity|]. simpl.
  intros H. apply andb_true_iff in H as [Hc Hs]. rewrite (IH Hs). f_equal.
  apply (mem_char_cases c number_chars (fun c => lower_ascii c = c) Hc).
  cbv. repeat split.
Qed.

Lemma fmt_1f_nonempty (q : Q) : fmt_1f q <> "".
Proof.
  unfold fmt_1f.
  destruct (if Qlt_bool q 0 then "-" else "") as [|a s]; [|discriminate].
  destruct (digits_of_Z (round_half_even (Qabs q * 10) / 10)); discriminate.
Qed.

(** A tier phrase occurs around a formatted number only if it occurs in the
    text before it or in the text after it. *)
Lemma phrase_around_number (p x b : string) (q : Q) :
  In p tier_phrases ->
  str_in p (lower (x +:+ fmt_1f q +:+ b))
  = str_in p (lower x) || str_in p (lower b).
Proof.
  intros Hp. rewrite !lower_app, (lower_number_chars _ (fmt_1f_chars q)).
  apply (str_in_around_piece number_chars).
  - unfold tier_phrases in Hp. simpl in Hp.
    repeat (destruct Hp as [<- | Hp]; [reflexivity|]). destruct Hp.
  - unfold tier_phrases in Hp. simpl in Hp.
    repeat (destruct Hp as [<- | Hp]; [discriminate|]). destruct Hp.
  - apply fmt_1f_nonempty.
  - apply fmt_1f_chars.
Qed.

(** ** The fallback rationale, all branches *)

Lemma fallback_strong_no_phrase (p : string) (o sk ex : Q) :
  In p tier_phrases ->
  str_in p (lower (fallback_strong (fmt_1f o) (fmt_1f sk) (fmt_1f ex))) = false.
Proof.
  intros Hp. unfold fallback_strong.
  rewrite !(phrase_around_number p _ _ _ Hp).
  unfold tier_phrases in Hp. simpl in Hp.
  repeat (destruct Hp as [<- | Hp]; [vm_compute; reflexivity|]). destruct Hp.
Qed.

Lemma fallback_moderate_no_phrase (p best : string) (o v : Q) :
  In p tier_phrases -> In best category_names ->
  str_in p (lower (fallback_moderate (fmt_1f o) (category_label best) (fmt_1f v)))
  = false.
Proof.
  intros Hp Hb. unfold fallback_moderate.
  rewrite (phrase_around_number p _ _ _ Hp).
  match goal with
  | |- context [lower (?m2 +:+ ?l +:+ ?par +:+ fmt_1f v +:+ ?m3)] =>
      replace (m2 +:+ l +:+ par +:+ fmt_1f v +:+ m3)
        with ((m2 +:+ l +:+ par) +:+ fmt_1f v +:+ m3)
        by (rewrite !append_assoc; reflexivity)
  end.
  rewrite (phrase_around_number p _ _ _ Hp).
  unfold tier_phrases in Hp. unfold category_names in Hb. simpl in Hp, Hb.
  repeat (destruct Hp as [<- | Hp];
          [repeat (destruct Hb as [<- | Hb]; [vm_compute; reflexivity|]);
           destruct Hb|]).
  destruct Hp.
Qed.

Lemma no_phrase_no_match (text : string) :
  (forall p, In p tier_phrases -> str_in p (lower text) = false) ->
  has_positive_phrase (lower text) = false /\
  has_negative_phrase (lower text) = false.
Proof.
  intros H. unfold has_positive_phrase, has_negative_phrase, tier_phrases in *.
  rewrite !H by (simpl; tauto). split; reflexivity.
Qed.

Lemma py_max_key (scores : ScoreMap) (best : string) :
  py_max (fun k => dict_get scores k 0) (map fst scores) = Returned best ->
  In best (map fst scores) /\ exists v, dict_index scores best = Returned v.
Proof.
  intros H.
  assert (Hne : map fst scores <> []).
  { destruct scores; [discriminate | discriminate]. }
  destruct (py_max_In (fun k => dict_get scores k 0) _ Hne) as (m & Hm & Hin).
  rewrite H in Hm. injection Hm as <-. split; [exact Hin|].
  apply dict_index_has, dict_has_keys. exact Hin.
Qed.

(** X3. For a score map over the seven categories, the fallback rationale
    never holds a strong-positive phrase, whatever the scores; and from an
    overall score of 55 on it holds no strong-negative phrase either, so the
    tier computed with it is the tier of the thresholds and the safeguard. *)
Theorem fallback_rationale_phrases (overall : Q) (scores : ScoreMap) (text : string) :
  known_categories scores ->
  generate_fallback_reasoning overall scores = Returned text ->
  has_positive_phrase (lower text) = false /\
  (55 <= overall ->
   has_negative_phrase (lower text) = false /\
   determine_candidate_tier overall scores (Some text)
   = safeguard_tier overall scores).
Proof.
  intros Hk Hgen. unfold generate_fallback_reasoning in Hgen.
  assert (Hnone : (forall p, In p tier_phrases -> str_in p (lower text) = false) ->
                  has_positive_phrase (lower text) = false /\
                  (55 <= overall ->
                   has_negative_phrase (lower text) = false /\
                   determine_candidate_tier overall scores (Some text)
                   = safeguard_tier overall scores)).
  { intros H. destruct (no_phrase_no_match text H) as [Hp Hn].
    split; [exact Hp|]. intros _. split; [exact Hn|].
    unfold determine_candidate_tier. rewrite Hp, Hn.
    destruct (truthy text); reflexivity. }
  destruct (Qge_bool overall 75) eqn:E75.
  - destruct (dict_index scores "skills") as [sk|]; [|discriminate].
    destruct (dict_index scores "experience") as [ex|]; [|discriminate].
    injection Hgen as <-. apply Hnone.
    intros p Hp. apply fallback_strong_no_phrase, Hp.
  - destruct (Qge_bool overall 55) eqn:E55.
    + destruct (py_max _ _) as [best|] eqn:Emax; [|discriminate].
      destruct (py_max_key scores best Emax) as (Hin & v & Hv).
      rewrite Hv in Hgen. injection Hgen as <-. apply Hnone.
      intros p Hp. apply fallback_moderate_no_phrase; [exact Hp|].
      apply in_map_iff in Hin as ([k x] & <- & Hkx).
      unfold known_categories in Hk. rewrite Forall_forall in Hk.
      apply (Hk (k, x)). apply list_elem_of_In. exact Hkx.
    + injection Hgen as <-. split.
      * apply fallback_weak_no_positive, Hk.
      * intros H55. qabsurd.
Qed.

Lemma fallback_rationale_phrases_witness :
  exists text,
    generate_fallback_reasoning 62 (pipeline_scores 90 80 70 60 50 40 30)
      = Returned text /\
    determine_candidate_tier 62 (pipeline_scores 90 80 70 60 50 40 30) (Some text)
      = BEST.
Proof.
  destruct (generate_fallback_reasoning 62 (pipeline_scores 90 80 70 60 50 40 30))
    as [text|] eqn:E; [|vm_compute in E; discriminate].
  exists text. split; [reflexivity|].
  destruct (fallback_rationale_phrases 62 _ text (pipeline_scores_known _ _ _ _ _ _ _) E)
    as [_ H].
  destruct H as [_ ->]; [discriminate | reflexivity].
Defined.

(** X4. When the fallback itself fails: below an overall score of 55 it
    always returns a text; from 55 to below 75 it raises ValueError on an
    empty score map and returns a text otherwise; from 75 on it raises
    KeyError when the score map lacks "skills" or, failing that,
    "experience", and returns a text otherwise. *)
Theorem fallback_failures (overall : Q) (scores : ScoreMap) :
  (overall < 55 -> exists text, generate_fallback_reasoning overall scores = Returned text) /\
  (55 <= overall -> overall < 75 ->
     (scores = [] -> generate_fallback_reasoning overall scores = Raised ValueError) /\
     (scores <> [] ->
      exists text, generate_fallback_reasoning overall scores = Returned text)) /\
  (75 <= overall ->
     (dict_has scores "skills" = false ->
      generate_fallback_reasoning overall scores = Raised (KeyError "skills")) /\
     (dict_has scores "skills" = true -> dict_has scores "experience" = false ->
      generate_fallback_reasoning overall scores = Raised (KeyError "experience")) /\
     (dict_has scores "skills" = true -> dict_has scores "experience" = true ->
      exists text, generate_fallback_reasoning overall scores = Returned text)).
Proof.
  assert (Hmiss : forall key, dict_has scores key = false ->
                              dict_index scores key = Raised (KeyError key)).
  { intros key. induction scores as [|[k v] s IH]; simpl; [reflexivity|].
    destruct (String.eqb k key); simpl; [discriminate | exact IH]. }
  unfold generate_fallback_reasoning. split; [|split].
  - intros H.
    assert (H75 : overall < 75) by (eapply Qlt_trans; [exact H | reflexivity]).
    apply Qge_bool_false in H, H75. rewrite H75, H. eauto.
  - intros H55 H75. apply Qge_bool_true in H55. apply Qge_bool_false in H75.
    rewrite H75, H55. split.
    + intros ->. reflexivity.
    + intros Hne.
      assert (Hk : map fst scores <> []).
      { destruct scores; [exact (False_ind _ (Hne eq_refl)) | discriminate]. }
      destruct (py_max_In (fun k => dict_get scores k 0) _ Hk) as (m & Hm & Hin).
      rewrite Hm.
      destruct (dict_index_has scores m) as [v ->]; [|eauto].
      apply dict_has_keys. exact Hin.
  - intros H75. apply Qge_bool_true in H75. rewrite H75.
    split; [|split].
    + intros Hs. rewrite (Hmiss _ Hs). reflexivity.
    + intros Hs He. destruct (dict_index_has _ _ Hs) as [sk ->].
      rewrite (Hmiss _ He). reflexivity.
    + intros Hs He. destruct (dict_index_has _ _ Hs) as [sk ->].
      destruct (dict_index_has _ _ He) as [ex ->]. eauto.
Qed.

Lemma fallback_failures_witness :
  generate_fallback_reasoning 80 [("tools", 90)] = Raised (KeyError "skills") /\
  generate_fallback_reasoning 60 [] = Raised ValueError.
Proof.
  split.
  - destruct (fallback_failures 80 [("tools", 90)]) as (_ & _ & H).
    destruct H as (H & _); [discriminate|]. apply H. reflexivity.
  - destruct (fallback_failures 60 []) as (_ & H & _).
    destruct H as (H & _); [discriminate | reflexivity |]. apply H. reflexivity.
Defined.

(** ** The tracker: spacing of the grants and length of the wait *)

Lemma grant_times_app (t u : list Event) :
  grant_times (t ++ u) = grant_times t ++ grant_times u.
Proof.
  induction t as [|e t IH]; simpl; [reflexivity|].
  destruct e; simpl; rewrite IH; reflexivity.
Qed.

Lemma spaced_snoc (gap c : Q) (l : list Q) :
  spaced gap l -> List.Forall (fun g => g + gap <= c) l -> spaced gap (l ++ [c]).
Proof.
  induction l as [|a l IH]; intros Hs Hall; simpl.
  - split; exact I.
  - destruct Hs as [Hhd Hs]. inversion Hall as [|? ? Ha Hl]; subst.
    split; [|apply IH; assumption].
    destruct l as [|b l]; simpl; [exact Ha | exact Hhd].
Qed.

(** What one acquisition does to the clock and to the time of the last
    grant. *)
Lemma wait_for_rate_limit_clock (w : World) :
  let w' := _wait_for_rate_limit w in
  last_api_call_time w' = clock w' /\
  last_api_call_time w + MIN_DELAY_BETWEEN_CALLS <= last_api_call_time w' /\
  clock w <= clock w' /\
  grant_times (trace w') = grant_times (trace w) ++ [last_api_call_time w'] /\
  (minute_start_time w <= clock w -> last_api_call_time w <= clock w ->
   clock w' <= clock w + 62) /\
  (4 <= clock w - last_api_call_time w ->
   (api_call_count w < CALLS_PER_MINUTE_LIMIT)%Z
   \/ 60 <= clock w - minute_start_time w ->
   clock w' = clock w).
Proof.
  unfold _wait_for_rate_limit, min_delay_check, minute_limit_check,
    _reset_minute_counter, MIN_DELAY_BETWEEN_CALLS, CALLS_PER_MINUTE_LIMIT.
  destruct (Qge_bool (clock w - minute_start_time w) 60) eqn:E60; simpl.
  - (* the window restarts *)
    destruct (Qlt_bool (clock w - last_api_call_time w) 4) eqn:E4; simpl; qbool;
      rewrite ?grant_times_app; simpl; rewrite ?app_nil_r;
      (split; [reflexivity|]); (split; [lra|]); (split; [lra|]);
      (split; [reflexivity|]); (split; [intros; lra|]); intros H4 _;
      [lra | reflexivity].
  - destruct (20 <=? api_call_count w)%Z eqn:E20; simpl.
    + destruct (Qgt_bool (60 - (clock w - minute_start_time w)) 0) eqn:Erem;
        simpl.
      * destruct (Qlt_bool (clock w + (60 - (clock w - minute_start_time w) + 2)
                            - last_api_call_time w) 4) eqn:E4; simpl; qbool;
          rewrite ?grant_times_app; simpl; rewrite ?app_nil_r;
          (split; [reflexivity|]); (split; [lra|]); (split; [lra|]);
          (split; [reflexivity|]); (split; [intros; lra|]);
          intros H4 [Hc | Hc]; try lra; apply Z.leb_le in E20; lia.
      * qbool. lra.
    + destruct (Qlt_bool (clock w - last_api_call_time w) 4) eqn:E4; simpl; qbool;
        rewrite ?grant_times_app; simpl; rewrite ?app_nil_r;
        (split; [reflexivity|]); (split; [lra|]); (split; [lra|]);
        (split; [reflexivity|]); (split; [intros; lra|]); intros H4 _;
        [lra | reflexivity].
Qed.

Lemma retry_loop_last_call (env : Env) (prompt : string) (max_retries : nat)
    (attempts : list nat) (w : World) :
  let w' := fst (retry_loop env prompt max_retries attempts w) in
  last_api_call_time w' = last_api_call_time w /\
  grant_times (trace w') = grant_times (trace w).
Proof.
  revert w. induction attempts as [|k rest IH]; intros w; simpl.
  - split; reflexivity.
  - assert (Hcall : grant_times (trace w ++ [EvCall k]) = grant_times (trace w)).
    { rewrite grant_times_app. simpl. apply app_nil_r. }
    destruct (api env prompt k) as [r|e]; simpl; [split; [reflexivity | exact Hcall]|].
    destruct (classify e); simpl.
    + destruct (k <? max_retries - 1)%nat; simpl;
        [|split; [reflexivity | exact Hcall]].
      match goal with |- context [retry_loop _ _ _ rest ?w0] =>
        destruct (IH w0) as [-> ->] end.
      simpl. rewrite !grant_times_app. simpl. rewrite !app_nil_r.
      split; reflexivity.
    + destruct (k <? max_retries - 1)%nat; simpl;
        [|split; [reflexivity | exact Hcall]].
      match goal with |- context [retry_loop _ _ _ rest ?w0] =>
        destruct (IH w0) as [-> ->] end.
      simpl. rewrite !grant_times_app. simpl. rewrite !app_nil_r.
      split; reflexivity.
    + split; [reflexivity | exact Hcall].
Qed.

(** The invariant behind the spacing: the grants so far are spaced and none
    is later than the recorded time of the last call. *)
Lemma spacing_step (op : TrackerOp) (w : World) :
  is_manual_reset op = false ->
  spaced MIN_DELAY_BETWEEN_CALLS (grant_times (trace w)) ->
  List.Forall (fun g => g <= last_api_call_time w) (grant_times (trace w)) ->
  spaced MIN_DELAY_BETWEEN_CALLS (grant_times (trace (run_op op w))) /\
  List.Forall (fun g => g <= last_api_call_time (run_op op w))
    (grant_times (trace (run_op op w))).
Proof.
  intros Hop Hs Hall.
  assert (Hwait : spaced MIN_DELAY_BETWEEN_CALLS
                    (grant_times (trace (_wait_for_rate_limit w))) /\
                  List.Forall (fun g => g <= last_api_call_time (_wait_for_rate_limit w))
                    (grant_times (trace (_wait_for_rate_limit w)))).
  { destruct (wait_for_rate_limit_clock w) as (_ & Hgap & _ & Ht & _).
    rewrite Ht. unfold MIN_DELAY_BETWEEN_CALLS in *.
    set (c := last_api_call_time (_wait_for_rate_limit w)) in *. split.
    - apply spaced_snoc; [exact Hs|].
      eapply List.Forall_impl; [|exact Hall]. intros g Hg. cbv beta in *. lra.
    - apply List.Forall_app. split.
      + eapply List.Forall_impl; [|exact Hall]. intros g Hg. cbv beta in *. lra.
      + constructor; [lra | constructor]. }
  destruct op as [|env prompt n| |seconds]; simpl.
  - exact Hwait.
  - unfold generate_content.
    destruct (retry_loop_last_call env prompt n (seq 0 n) (_wait_for_rate_limit w))
      as [-> ->].
    exact Hwait.
  - discriminate.
  - split; assumption.
Qed.

(** X5. Without a manual reset, whatever the service answers and however
    the acquisitions, whole invocations and idle periods are interleaved,
    two successive grants of the tracker are at least the minimum delay of
    4 seconds apart on the module's clock; one acquisition alone moves the
    time of the last call forward by at least that delay.  A manual reset
    forgets the last call: two grants can then bear the same time. *)
Theorem grants_spaced (now : Q) (ops : list TrackerOp) :
  forallb (fun op => negb (is_manual_reset op)) ops = true ->
  spaced MIN_DELAY_BETWEEN_CALLS
    (grant_times (trace (run_ops ops (initial_world now)))) /\
  (forall w, last_api_call_time w + MIN_DELAY_BETWEEN_CALLS
             <= last_api_call_time (_wait_for_rate_limit w)) /\
  grant_times (trace (run_ops [OpAcquire; OpManualReset; OpAcquire]
                        (initial_world 100)))
  = [100; 100].
Proof.
  intros Hops. split; [|split].
  - assert (Hinv : forall w,
               spaced MIN_DELAY_BETWEEN_CALLS (grant_times (trace w)) ->
               List.Forall (fun g => g <= last_api_call_time w) (grant_times (trace w)) ->
               spaced MIN_DELAY_BETWEEN_CALLS (grant_times (trace (run_ops ops w)))).
    { induction ops as [|op ops IH]; intros w Hs Hall; [exact Hs|].
      simpl in Hops. apply andb_prop in Hops as [Hop Hrest].
      apply negb_true_iff in Hop.
      destruct (spacing_step op w Hop Hs Hall) as [Hs' Hall'].
      unfold run_ops. simpl. apply (IH Hrest); assumption. }
    apply Hinv; simpl; [exact I | constructor].
  - intros w. apply wait_for_rate_limit_clock.
  - reflexivity.
Qed.

Lemma grants_spaced_witness :
  spaced MIN_DELAY_BETWEEN_CALLS
    (grant_times (trace (run_ops [OpAcquire; OpIdle 1; OpAcquire; OpAcquire]
                           (initial_world 100)))).
Proof.
  apply (grants_spaced 100 [OpAcquire; OpIdle 1; OpAcquire; OpAcquire]).
  reflexivity.
Defined.

(** X6. One acquisition never moves the clock back; when the window did not
    start and the last call was not made in the future, it blocks for at most
    62 seconds; and it does not block at all when the last call is at least
    4 seconds old and the budget of the window is not used up or the window
    is over. *)
Theorem acquire_wait_bounded (w : World) :
  minute_start_time w <= clock w ->
  last_api_call_time w <= clock w ->
  let w' := _wait_for_rate_limit w in
  clock w <= clock w' /\ clock w' <= clock w + 62 /\
  (4 <= clock w - last_api_call_time w ->
   (api_call_count w < CALLS_PER_MINUTE_LIMIT)%Z
   \/ 60 <= clock w - minute_start_time w ->
   clock w' = clock w).
Proof.
  intros Hm Hl w'.
  destruct (wait_for_rate_limit_clock w) as (_ & _ & Hc & _ & Hb & Hn).
  split; [exact Hc|]. split; [exact (Hb Hm Hl) | exact Hn].
Qed.

Lemma acquire_wait_bounded_witness :
  clock (_wait_for_rate_limit (initial_world 100)) = 100.
Proof.
  destruct (acquire_wait_bounded (initial_world 100)) as (_ & _ & H).
  - apply Qle_refl.
  - discriminate.
  - apply H; [discriminate | left; reflexivity].
Defined.

(** ** The retry loop: which attempt decides, and how long it sleeps *)

Lemma retry_loop_outcome (env : Env) (prompt : string) (max_retries : nat)
    (len a k : nat) (w : World) :
  (a + len = max_retries)%nat -> (a <= k)%nat -> (k < max_retries)%nat ->
  (forall j, (a <= j)%nat -> (j < k)%nat -> retryable env prompt j = true) ->
  retryable env prompt k = false \/ S k = max_retries ->
  snd (retry_loop env prompt max_retries (seq a len) w)
  = final_outcome env prompt max_retries k /\
  exists t, trace (fst (retry_loop env prompt max_retries (seq a len) w))
            = trace w ++ t /\ calls t = (S k - a)%nat.
Proof.
  revert a w. induction len as [|len IH]; intros a w Hlen Hak Hk Hbefore Hlast.
  - lia.
  - simpl. destruct (Nat.eq_dec a k) as [->|Hne].
    + assert (Hone : exists t, trace w ++ [EvCall k] = trace w ++ t /\
                               calls t = (S k - k)%nat).
      { exists [EvCall k]. split; [reflexivity|].
        change (calls [EvCall k]) with 1%nat. lia. }
      unfold final_outcome, retryable in *.
      destruct (api env prompt k) as [response | e]; simpl; [split; [reflexivity | exact Hone]|].
      destruct (classify e); simpl.
      * destruct (k <? max_retries - 1)%nat eqn:Elt;
          [apply Nat.ltb_lt in Elt; destruct Hlast as [Hlast | Hlast];
           [discriminate | lia]|].
        split; [reflexivity | exact Hone].
      * destruct (k <? max_retries - 1)%nat eqn:Elt;
          [apply Nat.ltb_lt in Elt; destruct Hlast as [Hlast | Hlast];
           [discriminate | lia]|].
        split; [reflexivity | exact Hone].
      * split; [reflexivity | exact Hone].
    + pose proof (Hbefore a ltac:(lia) ltac:(lia)) as Hretry.
      unfold retryable in Hretry.
      assert (Elt : (a <? max_retries - 1)%nat = true) by (apply Nat.ltb_lt; lia).
      destruct (api env prompt a) as [response | e]; [discriminate|].
      destruct (classify e); [| |discriminate]; rewrite Elt;
        match goal with |- context [retry_loop _ _ _ (seq (S a) len) ?w0] =>
          destruct (IH (S a) w0 ltac:(lia) ltac:(lia) Hk
                      ltac:(intros j ? ?; apply Hbefore; lia) Hlast)
            as (-> & t & Et & Ct)
        end;
        (split; [reflexivity|]); rewrite Et; simpl; rewrite <- !app_assoc; simpl;
        eexists; (split; [reflexivity|]);
        match goal with |- calls (?e1 :: ?r) = _ =>
          change (calls (e1 :: r)) with (calls ([e1] ++ r))
        end;
        rewrite calls_app; change (calls [EvCall a]) with 1%nat.
      * change (calls (EvSleep (backoff_delay env a)
                       :: EvWindowStart (clock w + latency env a + backoff_delay env a)
                       :: t)) with (calls t).
        rewrite Ct. lia.
      * change (calls (EvSleep (10 * inject_Z (Z.of_nat a + 1)) :: t)) with (calls t).
        rewrite Ct. lia.
Qed.

(** X7. Which attempt decides the result of [generate_content]: the first
    one that is not a rate-limit or timeout failure, or else the last
    one.  The result is that attempt's answer, or the error of its class,
    and exactly the attempts up to it are made.  With no attempt allowed,
    a grant is still spent and the call fails without reaching the service;
    the closing failure is raised in no other case. *)
Theorem generate_content_outcome (env : Env) (prompt : string)
    (max_retries : nat) (w : World) :
  let run := generate_content env prompt max_retries w in
  (forall k,
     (k < max_retries)%nat ->
     (forall j, (j < k)%nat -> retryable env prompt j = true) ->
     retryable env prompt k = false \/ S k = max_retries ->
     snd run = final_outcome env prompt max_retries k /\
     calls (new_events w (fst run)) = S k) /\
  (max_retries = 0%nat ->
     snd run = inl (FailedAfter 0) /\
     calls (new_events w (fst run)) = 0%nat /\
     grants (new_events w (fst run)) = 1%nat) /\
  (forall n, snd run = inl (FailedAfter n) -> max_retries = 0%nat).
Proof.
  intros run. subst run.
  destruct (wait_for_rate_limit_trace w) as (t1 & Et1 & Gt1 & Ct1).
  split; [|split].
  - intros k Hk Hbefore Hlast. unfold generate_content.
    destruct (retry_loop_outcome env prompt max_retries max_retries 0 k
                (_wait_for_rate_limit w) eq_refl ltac:(lia) Hk
                ltac:(intros j _ Hj; apply Hbefore, Hj) Hlast)
      as (Hres & t & Et & Ct).
    split; [exact Hres|].
    rewrite (new_events_app w _ (t1 ++ t)).
    + rewrite calls_app, Ct1, Ct. lia.
    + rewrite Et, Et1, app_assoc. reflexivity.
  - intros ->. unfold generate_content. simpl.
    rewrite (new_events_app w _ t1 Et1). auto.
  - intros n Hn. destruct max_retries as [|m]; [reflexivity|]. exfalso.
    assert (Hex : exists k, (k < S m)%nat /\
                    (forall j, (j < k)%nat -> retryable env prompt j = true) /\
                    (retryable env prompt k = false \/ S k = S m)).
    { clear Hn.
      assert (Hsearch : forall b, (b <= m)%nat ->
                (forall j, (j < m - b)%nat -> retryable env prompt j = true) ->
                exists k, (k < S m)%nat /\
                  (forall j, (j < k)%nat -> retryable env prompt j = true) /\
                  (retryable env prompt k = false \/ S k = S m)).
      { induction b as [|b IHb]; intros Hb Hpre.
        - exists m. split; [lia|]. split; [|right; reflexivity].
          intros j Hj. apply Hpre. lia.
        - destruct (retryable env prompt (m - S b)%nat) eqn:Er.
          + apply IHb; [lia|]. intros j Hj.
            destruct (Nat.eq_dec j (m - S b)%nat) as [->|Hne]; [exact Er|].
            apply Hpre. lia.
          + exists (m - S b)%nat. split; [lia|]. split; [exact Hpre | left; exact Er]. }
      apply (Hsearch m); [lia|]. intros j Hj. lia. }
    destruct Hex as (k & Hk & Hbefore & Hlast).
    unfold generate_content in Hn.
    destruct (retry_loop_outcome env prompt (S m) (S m) 0 k
                (_wait_for_rate_limit w) eq_refl ltac:(lia) Hk
                ltac:(intros j _ Hj; apply Hbefore, Hj) Hlast)
      as (Hres & _).
    rewrite Hres in Hn. unfold final_outcome in Hn.
    destruct (api env prompt k) as [response | e]; [discriminate|].
    destruct (classify e); discriminate.
Qed.

Lemma generate_content_outcome_witness :
  snd (generate_content env_bad_request "p" MAX_RETRIES (initial_world 100))
  = inl (GroqApiError "Error code: 400 - invalid model") /\
  calls (new_events (initial_world 100)
           (fst (generate_content env_bad_request "p" MAX_RETRIES (initial_world 100))))
  = 1%nat.
Proof.
  destruct (generate_content_outcome env_bad_request "p" MAX_RETRIES (initial_world 100))
    as (H & _).
  apply (H 0%nat).
  - unfold MAX_RETRIES. lia.
  - intros j Hj. lia.
  - left. reflexivity.
Defined.

Lemma slept_app (t u : list Event) : slept (t ++ u) == slept t + slept u.
Proof.
  induction t as [|e t IH]; simpl; [lra|].
  destruct e; simpl; rewrite ?IH; lra.
Qed.

Lemma pow2_succ (a : nat) :
  inject_Z (2 ^ Z.of_nat (S a)) == 2 * inject_Z (2 ^ Z.of_nat a).
Proof.
  rewrite Nat2Z.inj_succ, Z.pow_succ_r by lia. rewrite inject_Z_mult. reflexivity.
Qed.

Lemma pow2_above (a : nat) :
  inject_Z (Z.of_nat a) + 1 <= inject_Z (2 ^ Z.of_nat a).
Proof.
  induction a as [|a IH].
  - unfold Qle. simpl. lia.
  - rewrite pow2_succ. rewrite Nat2Z.inj_succ. unfold Z.succ.
    rewrite inject_Z_plus. change (inject_Z 1) with 1. 
    assert (0 <= inject_Z (Z.of_nat a)).
    { change 0 with (inject_Z 0). rewrite <- Zle_Qle. lia. }
    lra.
Qed.

Lemma pow2_mono (a l : nat) :
  inject_Z (2 ^ Z.of_nat a) <= inject_Z (2 ^ Z.of_nat (a + l)).
Proof.
  rewrite <- Zle_Qle. apply Z.pow_le_mono_r; lia.
Qed.

Lemma backoff_delay_bounds (env : Env) (a : nat) :
  0 <= random env a /\ random env a <= 1 ->
  0 <= backoff_delay env a /\
  backoff_delay env a <= 15 * inject_Z (2 ^ Z.of_nat a) + 8.
Proof.
  intros [H0 H1]. destruct (uniform_bounds _ H0 H1) as [Hl Hu].
  unfold backoff_delay, INITIAL_RETRY_DELAY.
  pose proof (pow2_above a) as Hp.
  assert (0 <= inject_Z (Z.of_nat a)).
  { change 0 with (inject_Z 0). rewrite <- Zle_Qle. lia. }
  split; lra.
Qed.

Lemma retry_loop_slept (env : Env) (prompt : string) (max_retries : nat)
    (len a : nat) (w : World) :
  (forall k, 0 <= random env k /\ random env k <= 1) ->
  (a + S len = max_retries)%nat ->
  exists t, trace (fst (retry_loop env prompt max_retries (seq a (S len)) w))
            = trace w ++ t /\
            0 <= slept t /\
            slept t <= 15 * (inject_Z (2 ^ Z.of_nat (a + len)) - inject_Z (2 ^ Z.of_nat a))
                       + 8 * inject_Z (Z.of_nat len).
Proof.
  intros Hrand. revert a w. induction len as [|len IH]; intros a w Hlen.
  - assert (Elt : (a <? max_retries - 1)%nat = false) by (apply Nat.ltb_ge; lia).
    assert (Hone : exists t, trace w ++ [EvCall a] = trace w ++ t /\
              0 <= slept t /\
              slept t <= 15 * (inject_Z (2 ^ Z.of_nat (a + 0)) - inject_Z (2 ^ Z.of_nat a))
                         + 8 * inject_Z (Z.of_nat 0)).
    { exists [EvCall a]. split; [reflexivity|]. rewrite Nat.add_0_r. simpl slept.
      change (inject_Z (Z.of_nat 0)) with 0. split; lra. }
    simpl. destruct (api env prompt a) as [r|e]; simpl; [exact Hone|].
    destruct (classify e); rewrite ?Elt; simpl; exact Hone.
  - pose proof (pow2_mono a (S len)) as Hmono.
    assert (Hlen0 : 0 <= inject_Z (Z.of_nat (S len))).
    { change 0 with (inject_Z 0). rewrite <- Zle_Qle. lia. }
    assert (Hone : exists t, trace w ++ [EvCall a] = trace w ++ t /\
              0 <= slept t /\
              slept t <= 15 * (inject_Z (2 ^ Z.of_nat (a + S len)) - inject_Z (2 ^ Z.of_nat a))
                         + 8 * inject_Z (Z.of_nat (S len))).
    { exists [EvCall a]. split; [reflexivity|]. simpl slept. split; lra. }
    assert (Elt : (a <? max_retries - 1)%nat = true) by (apply Nat.ltb_lt; lia).
    assert (Hstep : inject_Z (Z.of_nat (S len)) == inject_Z (Z.of_nat len) + 1).
    { rewrite Nat2Z.inj_succ. unfold Z.succ. rewrite inject_Z_plus. reflexivity. }
    assert (Hidx : (S a + len = a + S len)%nat) by lia.
    change (seq a (S (S len))) with (a :: seq (S a) (S len)).
    remember (seq (S a) (S len)) as rest eqn:Erest.
    simpl.
    destruct (api env prompt a) as [r|e]; simpl; [exact Hone|].
    destruct (classify e); rewrite ?Elt; [| |exact Hone]; subst rest.
    + match goal with |- context [retry_loop _ _ _ (seq (S a) (S len)) ?w0] =>
        destruct (IH (S a) w0 ltac:(lia)) as (t & Et & H0 & Hb) end.
      rewrite Et. cbn [trace restart_window time_sleep api_call].
      rewrite <- !app_assoc. cbn [app].
      eexists. split; [reflexivity|]. cbn [slept].
      destruct (backoff_delay_bounds env a (Hrand a)) as [Hd0 Hd].
      rewrite Hidx in Hb. rewrite pow2_succ in Hb. split; lra.
    + match goal with |- context [retry_loop _ _ _ (seq (S a) (S len)) ?w0] =>
        destruct (IH (S a) w0 ltac:(lia)) as (t & Et & H0 & Hb) end.
      rewrite Et. cbn [trace restart_window time_sleep api_call].
      rewrite <- !app_assoc. cbn [app].
      eexists. split; [reflexivity|]. cbn [slept].
      pose proof (pow2_above a) as Hp.
      assert (Ha0 : 0 <= inject_Z (Z.of_nat a)).
      { change 0 with (inject_Z 0). rewrite <- Zle_Qle. lia. }
      rewrite inject_Z_plus. change (inject_Z 1) with 1.
      rewrite Hidx in Hb. rewrite pow2_succ in Hb. split; lra.
Qed.

Lemma wait_for_rate_limit_slept (w : World) :
  exists t, trace (_wait_for_rate_limit w) = trace w ++ t /\
            slept t == clock (_wait_for_rate_limit w) - clock w.
Proof.
  unfold _wait_for_rate_limit, min_delay_check, minute_limit_check,
    _reset_minute_counter.
  destruct (Qge_bool _ _); simpl.
  - destruct (Qlt_bool _ _); simpl; rewrite <- ?app_assoc; simpl;
      eexists; (split; [reflexivity|]); simpl; lra.
  - destruct (_ <=? _)%Z; simpl.
    + destruct (Qgt_bool _ _); simpl; destruct (Qlt_bool _ _); simpl;
        rewrite <- ?app_assoc; simpl;
        eexists; (split; [reflexivity|]); simpl; lra.
    + destruct (Qlt_bool _ _); simpl; rewrite <- ?app_assoc; simpl;
        eexists; (split; [reflexivity|]); simpl; lra.
Qed.

(** X8. How long one invocation of [generate_content] can sleep, whatever
    the service answers: with at least one attempt allowed and a random
    source that draws in [[0, 1]], the sleeps of the retry loop add up to at
    most 15 * (2^(max_retries - 1) - 1) + 8 * (max_retries - 1) seconds;
    with the acquisition before it, on a clock that is not behind the window
    start or the last call, at most 62 seconds more.  For the default of four
    attempts that is 129 and 191 seconds. *)
Theorem invocation_sleep_bounded (env : Env) (prompt : string)
    (max_retries : nat) (w : World) :
  (forall k, 0 <= random env k /\ random env k <= 1) ->
  (1 <= max_retries)%nat ->
  let w1 := _wait_for_rate_limit w in
  let w' := fst (generate_content env prompt max_retries w) in
  let loop_bound :=
    15 * (inject_Z (2 ^ Z.of_nat (max_retries - 1)) - 1)
    + 8 * inject_Z (Z.of_nat (max_retries - 1)) in
  slept (new_events w1 w') <= loop_bound /\
  (minute_start_time w <= clock w -> last_api_call_time w <= clock w ->
   slept (new_events w w') <= 62 + loop_bound) /\
  (max_retries = MAX_RETRIES -> loop_bound == 129).
Proof.
  intros Hrand Hn w1 w' loop_bound. subst w1 w' loop_bound.
  unfold generate_content.
  destruct max_retries as [|m]; [lia|].
  replace (S m - 1)%nat with m by lia.
  destruct (retry_loop_slept env prompt (S m) m 0 (_wait_for_rate_limit w) Hrand eq_refl)
    as (t & Et & H0 & Hb).
  simpl (0 + m)%nat in Hb. change (inject_Z (2 ^ Z.of_nat 0)) with 1 in Hb.
  split; [|split].
  - rewrite (new_events_app _ _ t Et). exact Hb.
  - intros Hm Hl.
    destruct (wait_for_rate_limit_slept w) as (t1 & Et1 & Hs1).
    destruct (wait_for_rate_limit_clock w) as (_ & _ & _ & _ & Hwait & _).
    specialize (Hwait Hm Hl).
    rewrite (new_events_app w _ (t1 ++ t)).
    + rewrite slept_app. lra.
    + rewrite Et, Et1, app_assoc. reflexivity.
  - intros E. injection E as ->. vm_compute. reflexivity.
Qed.

Lemma invocation_sleep_bounded_witness :
  slept (new_events (initial_world 100)
           (fst (generate_content env_always_429 "p" MAX_RETRIES (initial_world 100))))
  <= 62 + (15 * (inject_Z (2 ^ Z.of_nat (MAX_RETRIES - 1)) - 1)
           + 8 * inject_Z (Z.of_nat (MAX_RETRIES - 1))).
Proof.
  destruct (invocation_sleep_bounded env_always_429 "p" MAX_RETRIES (initial_world 100))
    as (_ & H & _).
  - intros k. split; discriminate.
  - unfold MAX_RETRIES. lia.
  - apply H; [apply Qle_refl | discriminate].
Defined.

(** ** Ranking a batch twice *)

Lemma assign_ranks_score (h : Store) (start : nat) (refs : list nat) (r : nat) :
  score_of (assign_ranks h start refs) r = score_of h r.
Proof.
  revert h start. induction refs as [|x refs IH]; intros h start; simpl;
    [reflexivity|].
  rewrite IH. unfold score_of.
  destruct (decide (x = r)) as [->|Hne].
  - rewrite lookup_alter_eq. destruct (h !! r); reflexivity.
  - rewrite lookup_alter_ne by exact Hne. reflexivity.
Qed.

Lemma set_rank_same (k : nat) (e : EvalResult) :
  rank e = Some k -> set_rank k e = e.
Proof. destruct e. simpl. intros ->. reflexivity. Qed.

Lemma assign_ranks_ranked (h : Store) (start : nat) (refs : list nat) :
  (forall i r, refs !! i = Some r -> rank_of h r = Some (start + i)%nat) ->
  assign_ranks h start refs = h.
Proof.
  revert start. induction refs as [|x refs IH]; intros start Hranked; simpl;
    [reflexivity|].
  assert (Hx : alter (set_rank start) x h = h).
  { apply map_eq. intros r. destruct (decide (x = r)) as [->|Hne].
    - rewrite lookup_alter_eq.
      specialize (Hranked 0%nat r eq_refl). unfold rank_of in Hranked.
      destruct (h !! r) as [e|]; [|discriminate]. simpl.
      rewrite set_rank_same; [reflexivity|].
      rewrite Hranked. f_equal. lia.
    - rewrite lookup_alter_ne by exact Hne. reflexivity. }
  rewrite Hx. apply IH. intros i r Hi.
  rewrite (Hranked (S i) r Hi). f_equal. lia.
Qed.

Lemma StronglySorted_weaken {A : Type} (R S : A -> A -> Prop) (l : list A) :
  (forall a b, R a b -> S a b) -> StronglySorted R l -> StronglySorted S l.
Proof.
  intros HRS Hl. induction Hl as [|a l Hl IH Ha]; constructor; [exact IH|].
  eapply List.Forall_impl; [|exact Ha]. intros b. apply HRS.
Qed.

(** X9. Ranking is idempotent: ranking the list that [rank_candidates]
    returned, in the store it left, changes neither the order nor any
    result. *)
Theorem rank_candidates_idempotent (h : Store) (evaluation_results : list nat) :
  NoDup evaluation_results ->
  Forall (fun r => is_Some (h !! r)) evaluation_results ->
  let ranked := rank_candidates h evaluation_results in
  rank_candidates ranked.1 ranked.2 = ranked.
Proof.
  intros Hnd Hall ranked. subst ranked. unfold rank_candidates. simpl.
  set (sorted := py_sorted (score_of h) true evaluation_results).
  set (h1 := assign_ranks h 1 sorted).
  assert (Hperm : Permutation sorted evaluation_results) by apply py_sorted_perm.
  assert (Hnd' : NoDup sorted) by (rewrite Hperm; exact Hnd).
  assert (Hsame : py_sorted (score_of h1) true sorted = sorted).
  { symmetry. apply py_sorted_unique; [|reflexivity].
    pose proof (py_sorted_desc (score_of h) evaluation_results) as Hdesc.
    fold sorted in Hdesc.
    eapply StronglySorted_weaken; [|exact Hdesc]. unfold h1.
    intros a b Hab. cbv beta in *. rewrite !assign_ranks_score. exact Hab. }
  rewrite Hsame. f_equal.
  apply assign_ranks_ranked. intros i r Hi.
  assert (Hin : r ∈ evaluation_results).
  { rewrite <- Hperm. eapply list_elem_of_lookup_2. exact Hi. }
  rewrite Forall_forall in Hall. destruct (Hall r Hin) as [e He].
  unfold rank_of, h1. rewrite (assign_ranks_at h 1 sorted i r e Hnd' Hi He).
  reflexivity.
Qed.

Lemma rank_candidates_idempotent_witness :
  let ranked := rank_candidates (store_of_scores 0 [70; 90; 90]) [0; 1; 2]%nat in
  rank_candidates ranked.1 ranked.2 = ranked.
Proof.
  apply rank_candidates_idempotent.
  - apply (bool_decide_unpack (NoDup [0; 1; 2]%nat)). vm_compute. exact I.
  - repeat constructor; vm_compute; eauto.
Defined.
